(** * csv_processor: filtering and aggregation of CSV tables

    A shallow embedding of [csv_processor.py] and the proofs of its
    specification.  The development has three parts.

    - The program.  [PyStr] has Python's [str] with the builtin string
      operations the module calls ([in], [split], [strip], [==], [<], [>]);
      [PyFloat] has Python's [float] (IEEE 754 binary64, as specified by the
      standard library's [SpecFloat]) with [float(str)], [sum], [min] and
      [max]; [Csv] has the class [CSVProcessor] with [filter_data] and
      [aggregate_data], and the two condition parsers.
    - The notions the specification uses: occurrence and first occurrence
      of an operator, trimming, lexicographic order, loaded tables.
    - The properties, one theorem for each, after the facts they rest on.

    Conventions.  A [str] is the list of its Unicode code points, so that
    comparison is code-point-wise as in Python.  Builtins follow CPython
    3.11.  A call has an [outcome]: it returns, it leaves through
    [sys.exit(1)] after one of the module's error messages, or it raises an
    exception that the module does not catch.  Rows are typed
    [Dict[str, str]] as in the module, so a cell is a text; [loaded] is the
    invariant of the specification's tables, that every row has a cell for
    every header. *)

From Stdlib Require Import ZArith NArith List Bool Lia String Ascii SpecFloat.
From Stdlib Require DecimalPos.
From stdpp Require Import base decidable option list countable gmap.

Import ListNotations.
Local Open Scope Z_scope.

(* ===================================================================== *)
(** * Python strings *)
(* ===================================================================== *)

Module PyStr.

(** A Python [str]: the sequence of its code points. *)
Definition str : Type := list N.

(** An ASCII literal as a [str]. *)
Definition py (s : string) : str := map N_of_ascii (list_ascii_of_string s).

(** [a == b] on strings. *)
Definition str_eqb (a b : str) : bool := bool_decide (a = b).

(** [a < b] on strings: the first differing code point decides; a proper
    prefix is smaller. *)
Fixpoint str_ltb (a b : str) : bool :=
  match a, b with
  | [], [] => false
  | [], _ :: _ => true
  | _ :: _, [] => false
  | x :: a', y :: b' =>
      if (x <? y)%N then true
      else if (y <? x)%N then false
      else str_ltb a' b'
  end.

(** [a > b] on strings is [b < a]. *)
Definition str_gtb (a b : str) : bool := str_ltb b a.

(** [s.startswith(p)]; used by the substring search below. *)
Fixpoint startswith (p s : str) : bool :=
  match p, s with
  | [], _ => true
  | _ :: _, [] => false
  | x :: p', y :: s' => (x =? y)%N && startswith p' s'
  end.

(** [sub in s]: [sub] occurs somewhere in [s]. *)
Fixpoint str_in (sub s : str) : bool :=
  startswith sub s ||
  match s with
  | [] => false
  | _ :: s' => str_in sub s'
  end.

(** The text before and after the leftmost occurrence of [sep] in [s]. *)
Fixpoint partition_first (sep s : str) : option (str * str) :=
  if startswith sep s then Some ([], drop (length sep) s)
  else match s with
       | [] => None
       | c :: s' =>
           match partition_first sep s' with
           | Some (before, after) => Some (c :: before, after)
           | None => None
           end
       end.

(** [s.split(sep, 1)] for a non-empty [sep] (every call site passes a
    non-empty literal): at most one split, at the leftmost occurrence. *)
Definition split1 (sep s : str) : list str :=
  match partition_first sep s with
  | Some (before, after) => [before; after]
  | None => [s]
  end.

(** The code points [str.strip()] removes ([str.isspace]). *)
Definition isspace (c : N) : bool :=
  ((9 <=? c) && (c <=? 13) || (28 <=? c) && (c <=? 32)
   || (c =? 133) || (c =? 160) || (c =? 5760)
   || (8192 <=? c) && (c <=? 8202)
   || (c =? 8232) || (c =? 8233) || (c =? 8239) || (c =? 8287)
   || (c =? 12288))%N.

Fixpoint lstrip_by (ws : N -> bool) (s : str) : str :=
  match s with
  | [] => []
  | c :: s' => if ws c then lstrip_by ws s' else s
  end.

Fixpoint rstrip_by (ws : N -> bool) (s : str) : str :=
  match s with
  | [] => []
  | c :: s' =>
      match rstrip_by ws s' with
      | [] => if ws c then [] else [c]
      | t => c :: t
      end
  end.

(** [s.strip()]. *)
Definition strip (s : str) : str := rstrip_by isspace (lstrip_by isspace s).

End PyStr.
Export PyStr.

(* ===================================================================== *)
(** * Outcomes of a call *)
(* ===================================================================== *)

(** The module reports every failure by printing a message and calling
    [sys.exit(1)].  Each such site is named after the failure it reports:

    - [UnknownColumn]          "Column '...' not found in CSV file."
    - [InvalidConditionFormat] "Invalid filter condition ..." and
                               "Invalid aggregate condition ..."
    - [UnknownOperation]       "Unknown operation ..." and
                               "Unknown aggregation operation ..."
    - [NonNumericColumn]       "Column '...' contains non-numeric values."
    - [EmptyColumn]            "No numeric values found in column '...'." *)
Inductive exit_reason : Type :=
  | UnknownColumn
  | InvalidConditionFormat
  | UnknownOperation
  | NonNumericColumn
  | EmptyColumn.

(** Exceptions that no handler of the module catches. *)
Inductive exception : Type :=
  | KeyError
  | ValueError
  | ZeroDivisionError.

Inductive outcome (A : Type) : Type :=
  | Return (a : A)
  | SysExit (r : exit_reason)
  | Raise (e : exception).
Arguments Return {A} a.
Arguments SysExit {A} r.
Arguments Raise {A} e.

#[global] Instance outcome_ret : MRet outcome := fun A a => Return a.

#[global] Instance outcome_bind : MBind outcome := fun A B k m =>
  match m with
  | Return a => k a
  | SysExit r => SysExit r
  | Raise e => Raise e
  end.

(** A [for] loop whose body may exit: the body sees the loop state and
    the current item. *)
Fixpoint for_each {S X : Type} (body : S -> X -> outcome S) (st : S) (items : list X)
  : outcome S :=
  match items with
  | [] => Return st
  | x :: rest => st' ← body st x; for_each body st' rest
  end.

(* ===================================================================== *)
(** * Python floats *)
(* ===================================================================== *)

Module PyFloat.

(** A Python [float] is an IEEE 754 binary64 number: 53 bits of precision,
    infinities at exponent 1024.  [S754_finite s m e] is [(-1)^s * m * 2^e]. *)
Definition float : Type := spec_float.
Definition prec : Z := 53.
Definition emax : Z := 1024.

Definition float_eqb (x y : float) : bool := SFeqb x y.   (* x == y *)
Definition float_ltb (x y : float) : bool := SFltb x y.   (* x < y  *)
Definition float_gtb (x y : float) : bool := SFltb y x.   (* x > y  *)
Definition float_leb (x y : float) : bool := SFleb x y.   (* x <= y *)
Definition float_add (x y : float) : float := SFadd prec emax x y.

Definition is_nan (x : float) : bool :=
  match x with S754_nan => true | _ => false end.

(** [float(n)] for an [int]: the nearest binary64, ties to even. *)
Definition float_of_int (n : Z) : float := binary_normalize prec emax n 0 false.

(** [x / y] on floats raises [ZeroDivisionError] when [y] is zero. *)
Definition float_truediv (x y : float) : option float :=
  match y with
  | S754_zero _ => None
  | _ => Some (SFdiv prec emax x y)
  end.

(** ** From a decimal numeral to the nearest float *)

(** The float nearest to [m * 10^e] for [m > 0] (ties to even; beyond the
    largest finite float the result is infinite).  For [e < 0] the quotient
    [m / 10^-e] is taken with at least 64 significant bits and one more bit
    that records a non-zero remainder, so the final rounding to 53 bits sees
    on which side of each tie the exact quotient lies. *)
Definition nearest_float (m e : Z) : float :=
  if 0 <=? e then binary_normalize prec emax (m * 10 ^ e) 0 false
  else
    let d := 10 ^ (- e) in
    let s := Z.max 0 (Z.log2 d - Z.log2 m + 64) in
    let n := m * 2 ^ s in
    let sticky := if n mod d =? 0 then 0 else 1 in
    binary_normalize prec emax (2 * (n / d) + sticky) (- (s + 1)) false.

(** The value of sign, decimal mantissa and decimal exponent. *)
Definition float_of_decimal (neg : bool) (m e : Z) : float :=
  if m =? 0 then S754_zero neg
  else if neg then SFopp (nearest_float m e) else nearest_float m e.

(** ** The builtin [float(str)] *)

(** Decimal digits outside ASCII: the code point of the digit zero of every
    run of ten digits of general category Nd (Unicode 14.0, the version of
    CPython 3.11's [unicodedata]). *)
Definition unicode_decimal_zeros : list N :=
  [ 0x660; 0x6f0; 0x7c0; 0x966; 0x9e6; 0xa66; 0xae6; 0xb66; 0xbe6; 0xc66;
    0xce6; 0xd66; 0xde6; 0xe50; 0xed0; 0xf20; 0x1040; 0x1090; 0x17e0;
    0x1810; 0x1946; 0x19d0; 0x1a80; 0x1a90; 0x1b50; 0x1bb0; 0x1c40; 0x1c50;
    0xa620; 0xa8d0; 0xa900; 0xa9d0; 0xa9f0; 0xaa50; 0xabf0; 0xff10; 0x104a0;
    0x10d30; 0x11066; 0x110f0; 0x11136; 0x111d0; 0x112f0; 0x11450; 0x114d0;
    0x11650; 0x116c0; 0x11730; 0x118e0; 0x11950; 0x11c50; 0x11d50; 0x11da0;
    0x16a60; 0x16ac0; 0x16b50; 0x1d7ce; 0x1d7d8; 0x1d7e2; 0x1d7ec; 0x1d7f6;
    0x1e140; 0x1e2f0; 0x1e950; 0x1fbf0 ]%N.

Definition unicode_decimal (c : N) : option N :=
  match List.filter (fun z => (z <=? c) && (c <=? z + 9))%N unicode_decimal_zeros with
  | z :: _ => Some (c - z)%N
  | [] => None
  end.

(** First step of [float(str)] on a text that is not pure ASCII: code
    points below 127 are kept, any other whitespace becomes a space and any
    other decimal digit its ASCII digit; the text is cut at the first other
    code point, which is replaced by ['?']. *)
Fixpoint to_ascii_digits_and_spaces (s : str) : str :=
  match s with
  | [] => []
  | c :: s' =>
      if (c <? 127)%N then c :: to_ascii_digits_and_spaces s'
      else if isspace c then 32%N :: to_ascii_digits_and_spaces s'
      else match unicode_decimal c with
           | Some d => (48 + d)%N :: to_ascii_digits_and_spaces s'
           | None => [63%N]
           end
  end.

(** A pure ASCII text is passed on as it is. *)
Definition transform_decimal_and_space (s : str) : str :=
  if forallb (fun c => c <? 128)%N s then s else to_ascii_digits_and_spaces s.

(** The whitespace of the C locale, stripped from both ends afterwards. *)
Definition isspace_c (c : N) : bool := ((9 <=? c) && (c <=? 13) || (c =? 32))%N.

Definition isdigit (c : N) : bool := ((48 <=? c) && (c <=? 57))%N.

(** Underscores are dropped when each stands between two digits; any other
    underscore makes the text invalid.  [prev] is the preceding character
    (NUL at the start). *)
Fixpoint remove_underscores (prev : N) (s : str) : option str :=
  match s with
  | [] => if (prev =? 95)%N then None else Some []
  | c :: s' =>
      if (c =? 95)%N then
        if isdigit prev then remove_underscores c s' else None
      else if (prev =? 95)%N && negb (isdigit c) then None
      else cons c <$> remove_underscores c s'
  end.

(** An optional sign; [true] for ['-']. *)
Definition take_sign (s : str) : bool * str :=
  match s with
  | 45%N :: s' => (true, s')
  | 43%N :: s' => (false, s')
  | _ => (false, s)
  end.

Definition tolower (c : N) : N := if ((65 <=? c) && (c <=? 90))%N then (c + 32)%N else c.

(** ["inf"], ["infinity"] and ["nan"], in any case, after an optional sign. *)
Definition parse_inf_or_nan (s : str) : option float :=
  let '(neg, body) := take_sign s in
  let low := map tolower body in
  if str_eqb low (py "inf") || str_eqb low (py "infinity") then Some (S754_infinity neg)
  else if str_eqb low (py "nan") then Some S754_nan
  else None.

(** The longest prefix of ASCII digits, as digit values, and the rest. *)
Fixpoint take_digits (s : str) : list Z * str :=
  match s with
  | c :: s' =>
      if isdigit c then
        let '(ds, rest) := take_digits s' in (Z.of_N (c - 48) :: ds, rest)
      else ([], s)
  | [] => ([], [])
  end.

Definition digits_value (ds : list Z) : Z := fold_left (fun acc d => 10 * acc + d) ds 0.

(** A decimal numeral: [sign] digits [. digits] [(e|E) [sign] digits], with
    at least one digit before the exponent; the whole text must be used. *)
Definition parse_decimal (s : str) : option float :=
  let '(neg, s1) := take_sign s in
  let '(int_part, s2) := take_digits s1 in
  let '(frac_part, s3) :=
    match s2 with
    | 46%N :: s2' => take_digits s2'
    | _ => ([], s2)
    end in
  match int_part ++ frac_part with
  | [] => None
  | mantissa =>
      let m := digits_value mantissa in
      let scale := - Z.of_nat (length frac_part) in
      match s3 with
      | [] => Some (float_of_decimal neg m scale)
      | c :: s4 =>
          if (c =? 101)%N || (c =? 69)%N then
            let '(eneg, s5) := take_sign s4 in
            match take_digits s5 with
            | ((_ :: _) as ds, []) =>
                let e := digits_value ds in
                Some (float_of_decimal neg m (scale + (if eneg then - e else e)))
            | _ => None
            end
          else None
      end
  end.

(** [float(s)]: [Some x] when the call returns [x], [None] when it raises
    [ValueError]. *)
Definition float_of_str (s : str) : option float :=
  let ascii := transform_decimal_and_space s in
  match rstrip_by isspace_c (lstrip_by isspace_c ascii) with
  | [] => None
  | trimmed =>
      text ← remove_underscores 0%N trimmed;
      match parse_inf_or_nan text with
      | Some x => Some x
      | None => parse_decimal text
      end
  end.

(** ** Builtin reductions over a list of floats *)

(** [sum(xs)]: starts from the integer 0 and adds from left to right. *)
Definition py_sum (xs : list float) : float := fold_left float_add xs (S754_zero false).

(** From CPython 3.12 on, [sum] adds floats with Neumaier's compensation:
    the rounding errors of the additions are collected in [c] and added at
    the end, unless [c] is zero or not finite.  The module is modelled with
    [py_sum]; this variant shows where the two agree. *)
Definition compensated_step (st : float * float) (x : float) : float * float :=
  let '(f_result, c) := st in
  let t := float_add f_result x in
  if float_leb (SFabs x) (SFabs f_result)
  then (t, float_add c (float_add (SFsub prec emax f_result t) x))
  else (t, float_add c (float_add (SFsub prec emax x t) f_result)).

Definition py_sum_compensated (xs : list float) : float :=
  match xs with
  | [] => S754_zero false
  | x :: rest =>
      let '(f_result, c) :=
        fold_left compensated_step rest (float_add (S754_zero false) x, S754_zero false) in
      match c with
      | S754_finite _ _ _ => float_add f_result c
      | _ => f_result
      end
  end.

(** [min(xs)] keeps the first item and replaces it by each later item that
    is smaller; it raises [ValueError] on an empty list. *)
Definition py_min (xs : list float) : option float :=
  match xs with
  | [] => None
  | x :: rest => Some (fold_left (fun cur item => if float_ltb item cur then item else cur) rest x)
  end.

(** [max(xs)], with "greater" for "smaller". *)
Definition py_max (xs : list float) : option float :=
  match xs with
  | [] => None
  | x :: rest => Some (fold_left (fun cur item => if float_gtb item cur then item else cur) rest x)
  end.

End PyFloat.
Export PyFloat.

(* ===================================================================== *)
(** * The module [csv_processor] *)
(* ===================================================================== *)

Module Csv.

(** A row as [csv.DictReader] yields it, typed [Dict[str, str]]. *)
Abbreviation row := (gmap str str).

(** [row[column]] *)
Definition getitem (r : row) (column : str) : outcome str :=
  match r !! column with
  | Some v => Return v
  | None => Raise KeyError
  end.

(** The attributes of a [CSVProcessor]. *)
Record CSVProcessor : Type := {
  filepath : str;
  data : list row;
  headers : list str;
}.

(** The value [aggregate_data] returns: the keys ['operation'], ['column']
    and ['value'] of its result. *)
Record AggregateResult : Type := {
  res_operation : str;
  res_column : str;
  res_value : float;
}.

(** ** [filter_data] *)

(** The [try] block of the loop body, once both conversions succeeded. *)
Definition numeric_test (operator : str) (numeric_row_value numeric_filter_value : float) : bool :=
  if str_eqb operator (py ">") && float_gtb numeric_row_value numeric_filter_value then true
  else if str_eqb operator (py "<") && float_ltb numeric_row_value numeric_filter_value then true
  else if str_eqb operator (py "=") && float_eqb numeric_row_value numeric_filter_value then true
  else false.

(** The [except ValueError] block. *)
Definition text_test (operator : str) (row_value value : str) : bool :=
  if str_eqb operator (py "=") && str_eqb row_value value then true
  else if str_eqb operator (py ">") && str_gtb row_value value then true
  else if str_eqb operator (py "<") && str_ltb row_value value then true
  else false.

(** Whether the loop body appends the row: [float(row_value)] and then
    [float(value)] are tried; a [ValueError] of either leads to the
    [except] block. *)
Definition row_matches (row_value operator value : str) : bool :=
  match float_of_str row_value with
  | None => text_test operator row_value value
  | Some numeric_row_value =>
      match float_of_str value with
      | None => text_test operator row_value value
      | Some numeric_filter_value =>
          numeric_test operator numeric_row_value numeric_filter_value
      end
  end.

Definition filter_body (column operator value : str) (filtered_data : list row) (r : row)
  : outcome (list row) :=
  row_value ← getitem r column;
  if row_matches row_value operator value
  then Return (filtered_data ++ [r])
  else Return filtered_data.

Definition filter_data (self : CSVProcessor) (column operator value : str)
  : outcome (list row) :=
  if negb (bool_decide (column ∈ headers self)) then SysExit UnknownColumn
  else for_each (filter_body column operator value) [] (data self).

(** ** [aggregate_data] *)

Definition collect_body (column : str) (numeric_values : list float) (r : row)
  : outcome (list float) :=
  cell ← getitem r column;
  match float_of_str cell with
  | Some x => Return (numeric_values ++ [x])
  | None => SysExit NonNumericColumn
  end.

Definition or_raise {A : Type} (e : exception) (o : option A) : outcome A :=
  match o with
  | Some a => Return a
  | None => Raise e
  end.

(** The code after the loop: the test for an empty list and the branch on
    the operation. *)
Definition aggregate_values (column operation : str) (numeric_values : list float)
  : outcome AggregateResult :=
  match numeric_values with
  | [] => SysExit EmptyColumn
  | _ :: _ =>
      if str_eqb operation (py "avg") then
        v ← or_raise ZeroDivisionError
              (float_truediv (py_sum numeric_values)
                             (float_of_int (Z.of_nat (length numeric_values))));
        Return {| res_operation := py "Average"; res_column := column; res_value := v |}
      else if str_eqb operation (py "min") then
        v ← or_raise ValueError (py_min numeric_values);
        Return {| res_operation := py "Minimum"; res_column := column; res_value := v |}
      else if str_eqb operation (py "max") then
        v ← or_raise ValueError (py_max numeric_values);
        Return {| res_operation := py "Maximum"; res_column := column; res_value := v |}
      else SysExit UnknownOperation
  end.

Definition aggregate_data (self : CSVProcessor) (column operation : str)
  : outcome AggregateResult :=
  if negb (bool_decide (column ∈ headers self)) then SysExit UnknownColumn
  else
    numeric_values ← for_each (collect_body column) [] (data self);
    aggregate_values column operation numeric_values.

(** ** The condition parsers *)

Definition operators : list str := [py ">="; py "<="; py ">"; py "<"; py "="].

(** The loop of [parse_filter_condition] over the operators still to try;
    falling out of the loop reaches the error exit. *)
Fixpoint parse_filter_loop (ops : list str) (condition : str) : outcome (str * str * str) :=
  match ops with
  | [] => SysExit InvalidConditionFormat
  | op :: rest =>
      if str_in op condition then
        match split1 op condition with
        | [part0; part1] => Return (strip part0, op, strip part1)
        | _ => parse_filter_loop rest condition
        end
      else parse_filter_loop rest condition
  end.

Definition parse_filter_condition (condition : str) : outcome (str * str * str) :=
  parse_filter_loop operators condition.

Definition parse_aggregate_condition (condition : str) : outcome (str * str) :=
  if negb (str_in (py "=") condition) then SysExit InvalidConditionFormat
  else
    match split1 (py "=") condition with
    | [part0; part1] =>
        let column := strip part0 in
        let operation := strip part1 in
        if negb (bool_decide (operation ∈ [py "avg"; py "min"; py "max"]))
        then SysExit UnknownOperation
        else Return (column, operation)
    | _ => SysExit InvalidConditionFormat
    end.

End Csv.
Export Csv.

(* ===================================================================== *)
(** * The output side of the module and [main] *)
(* ===================================================================== *)

Module Cli.

(** ** What is printed *)

(** The calls of [print]: a line of text, or the grid that [tabulate]
    draws from a list of rows and a list of headers (always with
    [tablefmt='grid']).  [tabulate] is a library; the model stops at the
    arguments it is called with. *)
Inductive printed : Type :=
  | Line (text : str)
  | Grid (table_data : list (list str)) (table_headers : list str).

(** The decimal digits of a number, most significant first. *)
Fixpoint uint_codes (d : Decimal.uint) : str :=
  match d with
  | Decimal.Nil => []
  | Decimal.D0 d => 48%N :: uint_codes d
  | Decimal.D1 d => 49%N :: uint_codes d
  | Decimal.D2 d => 50%N :: uint_codes d
  | Decimal.D3 d => 51%N :: uint_codes d
  | Decimal.D4 d => 52%N :: uint_codes d
  | Decimal.D5 d => 53%N :: uint_codes d
  | Decimal.D6 d => 54%N :: uint_codes d
  | Decimal.D7 d => 55%N :: uint_codes d
  | Decimal.D8 d => 56%N :: uint_codes d
  | Decimal.D9 d => 57%N :: uint_codes d
  end.

(** [str(n)] for an [int] that is not negative. *)
Definition str_of_int (n : Z) : str := uint_codes (N.to_uint (Z.to_N n)).

(** [num / den] rounded to the nearest integer, a tie to the even one. *)
Definition round_half_even (num den : Z) : Z :=
  let q := num / den in
  let r := num mod den in
  if 2 * r <? den then q
  else if den <? 2 * r then q + 1
  else if Z.even q then q else q + 1.

(** The number of hundredths nearest to [m * 2^e]. *)
Definition hundredths (m : positive) (e : Z) : Z :=
  if 0 <=? e then Z.pos m * 2 ^ e * 100
  else round_half_even (Z.pos m * 100) (2 ^ (- e)).

(** [f"{x:.2f}"]: the exact value of the float rounded to two decimals. *)
Definition format_2f (x : float) : str :=
  match x with
  | S754_nan => py "nan"
  | S754_infinity s => if s then py "-inf" else py "inf"
  | S754_zero s => (if s then py "-" else []) ++ py "0.00"
  | S754_finite s m e =>
      let n := hundredths m e in
      (if s then py "-" else [])
      ++ str_of_int (n / 100) ++ py "."
      ++ str_of_int (n mod 100 / 10) ++ str_of_int (n mod 10)
  end.

(** ** The remaining methods of [CSVProcessor] *)

Definition __init__ (path : str) : CSVProcessor :=
  {| filepath := path; data := []; headers := [] |}.

(** What opening the file and reading it with [csv.DictReader] comes to:
    the field names of the reader ([None] for a file without a first
    record) and its rows, or the exception raised on the way. *)
Inductive read_result : Type :=
  | ReadRows (fieldnames : option (list str)) (rows : list row)
  | RaisesFileNotFoundError
  | RaisesException.

(** The exits of [main] and [load_data], besides those of the functions
    modelled above:

    - [FileNotFound]  "Error: File '...' not found."
    - [ReadFailure]   "Error reading file: ..."
    - [BothOptions]   "Error: Cannot use both --where and --aggregate ..."
    - [NoOption]      "Error: Must specify either --where or --aggregate ..." *)
Inductive exit_message : Type :=
  | FileNotFound
  | ReadFailure
  | BothOptions
  | NoOption
  | Reported (r : exit_reason).

Inductive run (A : Type) : Type :=
  | Finished (a : A)
  | Exit1 (m : exit_message)
  | Uncaught (e : exception).
Arguments Finished {A} a.
Arguments Exit1 {A} m.
Arguments Uncaught {A} e.

#[global] Instance run_ret : MRet run := fun A a => Finished a.

#[global] Instance run_bind : MBind run := fun A B k m =>
  match m with
  | Finished a => k a
  | Exit1 r => Exit1 r
  | Uncaught e => Uncaught e
  end.

(** A call of one of the functions modelled above, inside [main]. *)
Definition call {A : Type} (o : outcome A) : run A :=
  match o with
  | Return a => Finished a
  | SysExit r => Exit1 (Reported r)
  | Raise e => Uncaught e
  end.

(** [load_data], with the file system as a function from paths. *)
Definition load_data (read_csv : str -> read_result) (self : CSVProcessor)
  : run CSVProcessor :=
  match read_csv (filepath self) with
  | ReadRows fieldnames rows =>
      Finished {| filepath := filepath self;
                  data := rows;
                  headers := match fieldnames with
                             | Some names => names
                             | None => []
                             end |}
  | RaisesFileNotFoundError => Exit1 FileNotFound
  | RaisesException => Exit1 ReadFailure
  end.

(** [row.get(header, '')] *)
Definition get_or_empty (r : row) (header : str) : str :=
  match r !! header with
  | Some v => v
  | None => []
  end.

Definition display_table (self : CSVProcessor) (rows : list row) : list printed :=
  match rows with
  | [] => [Line (py "No data to display.")]
  | _ :: _ =>
      let table_data :=
        fold_left (fun table_data r =>
                     table_data ++ [map (get_or_empty r) (headers self)])
                  rows [] in
      [Grid table_data (headers self)]
  end.

Definition display_aggregation (result : AggregateResult) : list printed :=
  let table_data :=
    [ [py "Operation"; res_operation result];
      [py "Column"; res_column result];
      [py "Value"; format_2f (res_value result)] ] in
  [Grid table_data [py "Metric"; py "Value"]].

(** ** [main] *)

(** The arguments after [parse_args]: the file, and the two options, [None]
    when not given. *)
Record Namespace : Type := {
  arg_file : str;
  arg_where : option str;
  arg_aggregate : option str;
}.

(** The truth value of an option: [None] and the empty text are false. *)
Definition given (o : option str) : bool :=
  match o with
  | Some (_ :: _) => true
  | _ => false
  end.

Definition option_text (o : option str) : str :=
  match o with
  | Some text => text
  | None => []
  end.

Definition main (read_csv : str -> read_result) (args : Namespace) : run (list printed) :=
  if given (arg_where args) && given (arg_aggregate args) then Exit1 BothOptions
  else if negb (given (arg_where args)) && negb (given (arg_aggregate args))
  then Exit1 NoOption
  else
    processor ← load_data read_csv (__init__ (arg_file args));
    if given (arg_where args) then
      '(column, operator, value) ← call (parse_filter_condition (option_text (arg_where args)));
      filtered_data ← call (filter_data processor column operator value);
      Finished
        ([ Line (py "Filtered results for: " ++ column ++ py " " ++ operator
                 ++ py " " ++ value);
           Line (py "Found " ++ str_of_int (Z.of_nat (length filtered_data))
                 ++ py " records:");
           Line [] ]
         ++ display_table processor filtered_data)
    else if given (arg_aggregate args) then
      '(column, operation) ← call (parse_aggregate_condition (option_text (arg_aggregate args)));
      result ← call (aggregate_data processor column operation);
      Finished
        ([ Line (py "Aggregation results:"); Line [] ]
         ++ display_aggregation result)
    else Finished [].

End Cli.
Export Cli.

(* ===================================================================== *)
(** * Notions of the specification *)
(* ===================================================================== *)

(** [sub] occurs in [text]. *)
Definition occurs (sub text : str) : Prop :=
  ∃ before after, text = before ++ sub ++ after.

(** [before] and [after] surround the first (leftmost) occurrence of [sep]. *)
Definition first_occurrence (sep text before after : str) : Prop :=
  text = before ++ sep ++ after ∧
  ∀ before' after', text = before' ++ sep ++ after' →
                    (length before ≤ length before')%nat.

(** [t] is [s] without its leading and trailing whitespace. *)
Definition trimmed (s t : str) : Prop :=
  ∃ l r, s = l ++ t ++ r ∧
         Forall (λ c, isspace c = true) l ∧ Forall (λ c, isspace c = true) r ∧
         (∀ c t', t = c :: t' → isspace c = false) ∧
         (∀ t' c, t = t' ++ [c] → isspace c = false).

(** Lexicographic order on code points: [a] is a proper prefix of [b], or
    at the first position where they differ [a] has the smaller one. *)
Definition lex_lt (a b : str) : Prop :=
  (∃ c t, b = a ++ c :: t) ∨
  (∃ p x y a' b', a = p ++ x :: a' ∧ b = p ++ y :: b' ∧ (x < y)%N).

(** The operator of a filter condition: the first one of [operators], in
    that order, that occurs in the text. *)
Definition selected_operator (op text : str) : Prop :=
  ∃ earlier later, operators = earlier ++ op :: later ∧
                   occurs op text ∧ ∀ o, o ∈ earlier → ¬ occurs o text.

Definition no_operator (text : str) : Prop :=
  ∀ op, op ∈ operators → ¬ occurs op text.

(** Every row has a cell for every header, as a loaded table has. *)
Definition loaded (self : CSVProcessor) : Prop :=
  Forall (λ r : row, Forall (λ h, is_Some (r !! h)) (headers self)) (data self).

(** The cells of a column, in row order. *)
Definition column_values (self : CSVProcessor) (column : str) : list str :=
  omap (λ r : row, r !! column) (data self).

(** ** Conditions *)

(** The operator the specification selects, computed. *)
Definition select_operator (text : str) : option str :=
  List.find (λ op, str_in op text) operators.

(** The rejection rule the specification gives for filter conditions: the
    parser fails with [InvalidConditionFormat] exactly when no operator
    occurs or one of the two parts around the selected operator is empty
    once trimmed. *)
Definition degenerate_split (text : str) : Prop :=
  ∃ op part0 part1, selected_operator op text ∧ first_occurrence op text part0 part1 ∧
                    (strip part0 = [] ∨ strip part1 = []).

Definition filter_condition_rejected_as_specified (text : str) : Prop :=
  parse_filter_condition text = SysExit InvalidConditionFormat ↔
  no_operator text ∨ degenerate_split text.

Definition aggregate_operations : list str := [py "avg"; py "min"; py "max"].

(** The form the specification requires of an aggregate condition: two
    parts around the only ['='] of the text, both non-empty once trimmed;
    any other text is an [InvalidConditionFormat]. *)
Definition well_split (text part0 part1 : str) : Prop :=
  text = part0 ++ py "=" ++ part1 ∧
  ¬ occurs (py "=") part0 ∧ ¬ occurs (py "=") part1 ∧
  strip part0 ≠ [] ∧ strip part1 ≠ [].

Definition aggregate_condition_parsed_as_specified (text : str) : Prop :=
  ((¬ ∃ part0 part1, well_split text part0 part1) →
   parse_aggregate_condition text = SysExit InvalidConditionFormat) ∧
  (∀ part0 part1, well_split text part0 part1 →
     (strip part1 ∈ aggregate_operations →
      parse_aggregate_condition text = Return (strip part0, strip part1)) ∧
     (strip part1 ∉ aggregate_operations →
      parse_aggregate_condition text = SysExit UnknownOperation)).

(** ** Filtering *)

(** What the specification compares when both texts are numbers, and when
    one of them is not.  [SFcompare] is the IEEE 754 comparison; it has no
    result when an operand is NaN. *)
Definition numeric_holds (operator : str) (x y : float) : Prop :=
  (operator = py ">" ∧ SFcompare x y = Some Gt) ∨
  (operator = py "<" ∧ SFcompare x y = Some Lt) ∨
  (operator = py "=" ∧ SFcompare x y = Some Eq).

Definition lexicographic_holds (operator : str) (a b : str) : Prop :=
  (operator = py ">" ∧ lex_lt b a) ∨
  (operator = py "<" ∧ lex_lt a b) ∨
  (operator = py "=" ∧ a = b).

(** Reflexivity as the specification states it: filtering a column for the
    cell of one of the rows, with ['='], returns that row among others. *)
Definition own_value_selected (self : CSVProcessor) : Prop :=
  ∀ r column cell,
    r ∈ data self → column ∈ headers self → r !! column = Some cell →
    ∃ rows, filter_data self column (py "=") cell = Return rows ∧ r ∈ rows.

(** A table of one column [x] with the given cells. *)
Definition single_column (cells : list str) : CSVProcessor :=
  {| filepath := py "column.csv";
     data := (λ cell, {[ py "x" := cell ]}) <$> cells;
     headers := [py "x"] |}.

(** The table of the module's tests. *)
Definition phone (name brand price rating : string) : row :=
  <[py "name" := py name]> (<[py "brand" := py brand]>
    (<[py "price" := py price]> {[ py "rating" := py rating ]})).

Definition phones : CSVProcessor :=
  {| filepath := py "phones.csv";
     data := [ phone "iphone 15 pro" "apple" "999" "4.9";
               phone "galaxy s23 ultra" "samsung" "1199" "4.8";
               phone "redmi note 12" "xiaomi" "199" "4.6";
               phone "poco x5 pro" "xiaomi" "299" "4.4" ];
     headers := [py "name"; py "brand"; py "price"; py "rating"] |}.

(** The table of the tests of edge cases. *)
Definition product (name category price available : string) : row :=
  <[py "name" := py name]> (<[py "category" := py category]>
    (<[py "price" := py price]> {[ py "available" := py available ]})).

Definition products : CSVProcessor :=
  {| filepath := py "products.csv";
     data := [ product "product1" "electronics" "0" "true";
               product "product2" "books" "-5.99" "false";
               product "product3" "clothes" "100.50" "true" ];
     headers := [py "name"; py "category"; py "price"; py "available"] |}.

(** The rows [filter_data] is to keep. *)
Definition keeps (column operator value : str) (r : row) : bool :=
  match r !! column with
  | Some cell => row_matches cell operator value
  | None => false
  end.

(** The rows of a successful filtering. *)
Definition filter_data_rows (self : CSVProcessor) (column operator value : str)
  : option (list row) :=
  match filter_data self column operator value with
  | Return rows => Some rows
  | _ => None
  end.

(** ** Aggregation *)

(** The value of a successful aggregation. *)
Definition aggregate_value (self : CSVProcessor) (column operation : str) : option float :=
  match aggregate_data self column operation with
  | Return result => Some (res_value result)
  | _ => None
  end.

(** The order the specification states: the three aggregates of a column
    exist and [min <= avg <= max]. *)
Definition min_avg_max_ordered (self : CSVProcessor) (column : str) : Prop :=
  ∃ lo av hi,
    aggregate_value self column (py "min") = Some lo ∧
    aggregate_value self column (py "avg") = Some av ∧
    aggregate_value self column (py "max") = Some hi ∧
    float_leb lo av = true ∧ float_leb av hi = true.

(** The cells of a column all parse as floats. *)
Definition numeric_column (self : CSVProcessor) (column : str) : Prop :=
  Forall (λ cell, is_Some (float_of_str cell)) (column_values self column).

(** ** Further notions *)

(** A text without any of the characters ['<'], ['='], ['>'] the operators
    are made of. *)
Definition plain (s : str) : Prop :=
  Forall (λ c, c ≠ 60 ∧ c ≠ 61 ∧ c ≠ 62)%N s.

(** The processor with other rows in place of its own: what
    [processor.data = rows] makes of it. *)
Definition with_data (self : CSVProcessor) (rows : list row) : CSVProcessor :=
  {| filepath := filepath self; data := rows; headers := headers self |}.

(** A comparison of two numbers one of which is NaN. *)
Definition compares_nan (cell target : str) : bool :=
  match float_of_str cell, float_of_str target with
  | Some x, Some y => is_nan x || is_nan y
  | _, _ => false
  end.

(** The label [aggregate_data] gives an operation. *)
Definition operation_label (operation : str) : str :=
  if str_eqb operation (py "avg") then py "Average"
  else if str_eqb operation (py "min") then py "Minimum"
  else py "Maximum".

(** The cells a grid shows for a row. *)
Definition shown_cells (self : CSVProcessor) (r : row) : list str :=
  map (get_or_empty r) (headers self).

(** The number in the cell of a column, for a row that has the cell and a
    cell that is a numeral. *)
Definition cell_number (column : str) (r : row) : option float :=
  match r !! column with
  | Some cell => float_of_str cell
  | None => None
  end.

(** The cell of the column is a numeral for NaN. *)
Definition nan_cell (column : str) (r : row) : bool :=
  match cell_number column r with
  | Some x => is_nan x
  | None => false
  end.

(** What the loop of [aggregate_data] does at a row without a number. *)
Definition stops_at (column : str) (r : row) : outcome AggregateResult :=
  match r !! column with
  | Some _ => SysExit NonNumericColumn
  | None => Raise KeyError
  end.

(** A text of the form [-ddd.dd]: an optional sign, digits, a point and
    two digits. *)
Definition two_decimals (text : str) : Prop :=
  ∃ sign whole d1 d2,
    text = sign ++ whole ++ py "." ++ [d1; d2] ∧
    (sign = [] ∨ sign = py "-") ∧
    whole ≠ [] ∧ Forall (λ c, isdigit c = true) whole ∧
    isdigit d1 = true ∧ isdigit d2 = true.

(** The headers [load_data] makes of the field names of the reader. *)
Definition headers_of (fieldnames : option (list str)) : list str :=
  match fieldnames with
  | Some names => names
  | None => []
  end.


(** The lines [main] prints before the table of a filter. *)
Definition filter_report (column operator value : str) (count : nat) : list printed :=
  [ Line (py "Filtered results for: " ++ column ++ py " " ++ operator ++ py " " ++ value);
    Line (py "Found " ++ str_of_int (Z.of_nat count) ++ py " records:");
    Line [] ].

(** A file system with one file. *)
Definition one_file (path : str) (fieldnames : list str) (rows : list row)
  : str → read_result :=
  λ p, if bool_decide (p = path) then ReadRows (Some fieldnames) rows
       else RaisesFileNotFoundError.

(* ===================================================================== *)
(** * Facts about loops and strings *)
(* ===================================================================== *)

Section OutcomeFacts.

Lemma bind_Return {A B : Type} (a : A) (k : A -> outcome B) : Return a ≫= k = k a.
Proof. reflexivity. Qed.

Lemma for_each_cons {S X : Type} (body : S -> X -> outcome S) (st : S) (x : X) (rest : list X) :
  for_each body st (x :: rest) = body st x ≫= λ st', for_each body st' rest.
Proof. reflexivity. Qed.

End OutcomeFacts.

Section StringFacts.

Implicit Types (s t l r sub sep p a b : str) (c x y : N) (ws : N → bool).

Lemma startswith_spec p s : startswith p s = true ↔ ∃ t, s = p ++ t.
Proof.
  revert s. induction p as [|x p IH]; intros s; simpl.
  - split; [eauto | done].
  - destruct s as [|y s].
    + split; [done | intros [t Ht]; discriminate].
    + rewrite andb_true_iff, N.eqb_eq, IH. split.
      * intros [-> [t ->]]. eauto.
      * intros [t Ht]. injection Ht as -> ->. eauto.
Qed.

Lemma str_in_spec sub s : str_in sub s = true ↔ occurs sub s.
Proof.
  unfold occurs. induction s as [|c s IH]; simpl.
  - rewrite orb_false_r, startswith_spec. split.
    + intros [t Ht]. exists [], t. done.
    + intros (a & b & Hab). destruct a; [|discriminate]. eauto.
  - rewrite orb_true_iff, startswith_spec, IH. split.
    + intros [[t Ht] | (a & b & ->)].
      * exists [], t. done.
      * exists (c :: a), b. done.
    + intros (a & b & Hab). destruct a as [|c' a].
      * left. eauto.
      * right. injection Hab as _ ->. eauto.
Qed.

Lemma str_in_false sub s : str_in sub s = false ↔ ¬ occurs sub s.
Proof. rewrite <- str_in_spec. destruct (str_in sub s); naive_solver. Qed.

Lemma partition_first_None sep s : partition_first sep s = None ↔ ¬ occurs sep s.
Proof.
  rewrite <- str_in_spec. induction s as [|c s IH]; simpl.
  - destruct (startswith sep []); simpl; split; congruence.
  - destruct (startswith sep (c :: s)); simpl; [split; congruence|].
    rewrite <- IH. destruct (partition_first sep s) as [[? ?]|]; split; congruence.
Qed.

Lemma partition_first_Some sep s a b :
  partition_first sep s = Some (a, b) → first_occurrence sep s a b.
Proof.
  unfold first_occurrence. revert a b. induction s as [|c s IH]; intros a b; simpl.
  - destruct (startswith sep []) eqn:Hsw; [|done].
    intros [= <- <-]. apply startswith_spec in Hsw as [t Ht].
    symmetry in Ht. apply app_eq_nil in Ht as [-> ->]. split; [done|].
    intros; simpl; lia.
  - destruct (startswith sep (c :: s)) eqn:Hsw.
    + intros [= <- <-]. apply startswith_spec in Hsw as [t Ht]. split.
      * rewrite Ht, drop_app_length. done.
      * intros; simpl; lia.
    + destruct (partition_first sep s) as [[a0 b0]|] eqn:Hp; [|done].
      intros [= <- <-]. destruct (IH _ _ eq_refl) as [-> Hmin]. split; [done|].
      intros [|c' a'] b' Hab.
      * assert (startswith sep (c :: a0 ++ sep ++ b0) = true) as Hsw'
          by (apply startswith_spec; eauto).
        congruence.
      * injection Hab as _ Hab. apply Hmin in Hab. simpl. lia.
Qed.

(** When the separator occurs, the split has exactly two parts, around the
    first occurrence. *)
Lemma split1_occurs sep s :
  occurs sep s → ∃ a b, split1 sep s = [a; b] ∧ first_occurrence sep s a b.
Proof.
  intros Hocc. unfold split1.
  destruct (partition_first sep s) as [[a b]|] eqn:Hp.
  - exists a, b. split; [done|]. by apply partition_first_Some.
  - by apply partition_first_None in Hp.
Qed.

Lemma split1_absent sep s : ¬ occurs sep s → split1 sep s = [s].
Proof. intros H%partition_first_None. unfold split1. by rewrite H. Qed.

(** The first occurrence is unique. *)
Lemma first_occurrence_unique sep s a b a' b' :
  first_occurrence sep s a b → first_occurrence sep s a' b' → a = a' ∧ b = b'.
Proof.
  intros [H1 M1] [H2 M2].
  assert (length a = length a') as Hlen.
  { apply M1 in H2 as ?. apply M2 in H1 as ?. lia. }
  rewrite H1 in H2.
  assert (a = a') as <-.
  { apply (f_equal (take (length a))) in H2.
    rewrite take_app_length in H2. rewrite Hlen, take_app_length in H2. done. }
  split; [done|]. apply app_inv_head in H2. by apply app_inv_head in H2.
Qed.

(** *** [strip] *)

Lemma lstrip_by_spec ws s :
  ∃ l, s = l ++ lstrip_by ws s ∧ Forall (λ c, ws c = true) l ∧
       ∀ c t', lstrip_by ws s = c :: t' → ws c = false.
Proof.
  induction s as [|c s (l & Hl & Hws & Hhd)]; simpl.
  - exists []. split_and!; [done | constructor | done].
  - destruct (ws c) eqn:Hc.
    + exists (c :: l). split_and!; [by rewrite Hl at 1 | by constructor | done].
    + exists []. split_and!; [done | constructor | by intros ? ? [= <- _]].
Qed.

Lemma rstrip_by_spec ws s :
  ∃ r, s = rstrip_by ws s ++ r ∧ Forall (λ c, ws c = true) r ∧
       ∀ t' c, rstrip_by ws s = t' ++ [c] → ws c = false.
Proof.
  induction s as [|c s (r & Hr & Hws & Hlast)]; simpl.
  - exists []. split_and!; [done | constructor |]. by intros [|??] ?.
  - destruct (rstrip_by ws s) as [|d t] eqn:Ht.
    + destruct (ws c) eqn:Hc.
      * exists (c :: r). simpl in Hr. subst s. split_and!; [done | by constructor |].
        by intros [|??] ?.
      * exists r. simpl in Hr. subst s. split_and!; [done | done |].
        intros [|? [|??]] ?; naive_solver.
    + exists r. split_and!; [by rewrite Hr at 1 | done |].
      intros [|e t'] c0; simpl; intros [= ? ?]; subst.
      by apply (Hlast t' c0).
Qed.

Lemma rstrip_by_head ws s c t' :
  rstrip_by ws s = c :: t' → ∃ s', s = c :: s'.
Proof. destruct s as [|d s]; simpl; [done|]. destruct (rstrip_by ws s), (ws d); naive_solver. Qed.

Lemma strip_trimmed s : trimmed s (strip s).
Proof.
  unfold trimmed, strip.
  destruct (lstrip_by_spec isspace s) as (l & Hl & Hlws & Hhd).
  destruct (rstrip_by_spec isspace (lstrip_by isspace s)) as (r & Hr & Hrws & Hlast).
  exists l, r. split_and!; [| done | done | | done].
  - rewrite Hl at 1. by rewrite Hr at 1.
  - intros c t' Hc. destruct (rstrip_by_head _ _ _ _ Hc) as [s' Hs']. eauto.
Qed.

(** *** Padding *)

Lemma lstrip_by_all ws l : Forall (λ c, ws c = true) l → lstrip_by ws l = [].
Proof. induction 1 as [|c l Hc _ IH]; simpl; [done|]. by rewrite Hc. Qed.

Lemma rstrip_by_all ws r : Forall (λ c, ws c = true) r → rstrip_by ws r = [].
Proof. induction 1 as [|c r Hc _ IH]; simpl; [done|]. by rewrite IH, Hc. Qed.

Lemma lstrip_by_app_l ws l s :
  Forall (λ c, ws c = true) l → lstrip_by ws (l ++ s) = lstrip_by ws s.
Proof. induction 1 as [|c l Hc _ IH]; simpl; [done|]. by rewrite Hc. Qed.

Lemma rstrip_by_app_r ws s r :
  Forall (λ c, ws c = true) r → rstrip_by ws (s ++ r) = rstrip_by ws s.
Proof.
  intros Hr. induction s as [|c s IH]; simpl.
  - by apply rstrip_by_all.
  - by rewrite IH.
Qed.

(** Whitespace on either side does not change what is left after
    stripping. *)
Lemma strip_by_padded ws l s r :
  Forall (λ c, ws c = true) l → Forall (λ c, ws c = true) r →
  rstrip_by ws (lstrip_by ws (l ++ s ++ r)) = rstrip_by ws (lstrip_by ws s).
Proof.
  intros Hl Hr. rewrite lstrip_by_app_l by done.
  induction s as [|c s IH]; simpl.
  - by rewrite lstrip_by_all.
  - destruct (ws c); [done|]. by apply (rstrip_by_app_r ws (c :: s)).
Qed.

(** *** Comparison *)

Lemma str_eqb_eq a b : str_eqb a b = true ↔ a = b.
Proof. unfold str_eqb. apply bool_decide_eq_true. Qed.

Lemma str_eqb_refl a : str_eqb a a = true.
Proof. by apply str_eqb_eq. Qed.

Lemma str_eqb_ne a b : a ≠ b → str_eqb a b = false.
Proof. intros H. unfold str_eqb. by apply bool_decide_eq_false_2. Qed.

Lemma str_ltb_lex a b : str_ltb a b = true ↔ lex_lt a b.
Proof.
  unfold lex_lt. revert b. induction a as [|x a IH]; intros [|y b]; simpl.
  - split; [done|]. intros [(c & t & ?) | (p & ? & ? & ? & ? & Hp & _)]; [done|].
    by destruct p.
  - split; [|done]. intros _. left. eauto.
  - split; [done|]. intros [(c & t & ?) | (p & ? & ? & ? & ? & _ & Hp & _)]; [done|].
    by destruct p.
  - destruct (N.ltb_spec x y) as [Hxy|Hxy].
    { split; [|done]. intros _. right. exists [], x, y, a, b. done. }
    destruct (N.ltb_spec y x) as [Hyx|Hyx].
    { split; [done|].
      intros [(c & t & [= -> _]) | (p & x0 & y0 & a' & b' & Ha & Hb & Hlt)]; [lia|].
      destruct p; simplify_eq/=; lia. }
    assert (x = y) as -> by lia. rewrite IH. split.
    + intros [(c & t & ->) | (p & x0 & y0 & a' & b' & -> & -> & Hlt)].
      * left. eauto.
      * right. exists (y :: p), x0, y0, a', b'. done.
    + intros [(c & t & [= ->]) | (p & x0 & y0 & a' & b' & Ha & Hb & Hlt)].
      * left. eauto.
      * destruct p as [|z p]; simplify_eq/=; [lia|].
        right. exists p, x0, y0, a', b'. done.
Qed.

End StringFacts.

(* ===================================================================== *)
(** * The condition parsers *)
(* ===================================================================== *)

Section Parsers.

Implicit Types (text op column value : str).

Lemma find_first_spec (P : str → bool) (l : list str) (x : str) :
  List.find P l = Some x ↔
  ∃ earlier later, l = earlier ++ x :: later ∧ P x = true ∧ ∀ o, o ∈ earlier → P o = false.
Proof.
  induction l as [|y l IH]; simpl.
  - split; [done|]. intros (e & ? & He & _). by destruct e.
  - destruct (P y) eqn:Hy.
    + split.
      * intros [= ->]. exists [], l. split_and!; [done | done |]. by intros ? ?%elem_of_nil.
      * intros ([|z e] & later & He & Hx & Hpre).
        -- by injection He as ->.
        -- injection He as -> _. rewrite Hpre in Hy; [done | left].
    + rewrite IH. split.
      * intros (e & later & -> & Hx & Hpre). exists (y :: e), later.
        split_and!; [done | done |]. intros o [->|?]%elem_of_cons; auto.
      * intros ([|z e] & later & He & Hx & Hpre).
        -- injection He as -> _. congruence.
        -- injection He as -> ->. exists e, later. split_and!; [done | done |].
           intros o Ho. apply Hpre. by right.
Qed.

Lemma select_operator_Some text op :
  select_operator text = Some op ↔ selected_operator op text.
Proof.
  unfold select_operator, selected_operator. rewrite find_first_spec.
  split; intros (e & l & He & Hx & Hpre); exists e, l; split_and!; try done.
  - by apply str_in_spec.
  - intros o Ho. apply str_in_false. auto.
  - by apply str_in_spec.
  - intros o Ho. apply str_in_false. auto.
Qed.

Lemma select_operator_None text : select_operator text = None ↔ no_operator text.
Proof.
  unfold select_operator, no_operator. generalize operators as ops.
  induction ops as [|o ops IH]; simpl.
  - split; [|done]. by intros _ ? ?%elem_of_nil.
  - destruct (str_in o text) eqn:Ho.
    + split; [done|]. intros H. exfalso. apply (H o); [left | by apply str_in_spec].
    + rewrite IH. split.
      * intros H op [->|?]%elem_of_cons; [by apply str_in_false | auto].
      * intros H op ?. apply H. by right.
Qed.

(** The loop returns at the first operator of its list that occurs. *)
Lemma parse_filter_loop_selected ops earlier later op text :
  ops = earlier ++ op :: later → occurs op text →
  (∀ o, o ∈ earlier → ¬ occurs o text) →
  ∃ a b, first_occurrence op text a b ∧
         parse_filter_loop ops text = Return (strip a, op, strip b).
Proof.
  intros -> Hocc. induction earlier as [|o earlier IH]; intros Hpre; simpl.
  - apply str_in_spec in Hocc as Hin. rewrite Hin.
    destruct (split1_occurs _ _ Hocc) as (a & b & -> & Hfirst). eauto.
  - assert (str_in o text = false) as ->.
    { apply str_in_false, Hpre. left. }
    apply IH. intros o' ?. apply Hpre. by right.
Qed.

Lemma parse_filter_loop_none ops text :
  (∀ o, o ∈ ops → ¬ occurs o text) →
  parse_filter_loop ops text = SysExit InvalidConditionFormat.
Proof.
  induction ops as [|o ops IH]; intros Hno; simpl; [done|].
  assert (str_in o text = false) as ->.
  { apply str_in_false, Hno. left. }
  apply IH. intros o' ?. apply Hno. by right.
Qed.

(** Every text either has a selected operator or contains none. *)
Lemma operator_selection text :
  no_operator text ∨ ∃ op, selected_operator op text.
Proof.
  destruct (select_operator text) as [op|] eqn:Hsel.
  - right. exists op. by apply select_operator_Some.
  - left. by apply select_operator_None.
Qed.

Lemma parse_filter_condition_selected text op :
  selected_operator op text →
  ∃ part0 part1, first_occurrence op text part0 part1 ∧
                 parse_filter_condition text = Return (strip part0, op, strip part1).
Proof.
  intros (earlier & later & Hops & Hocc & Hpre).
  by apply (parse_filter_loop_selected _ earlier later).
Qed.

(** C2: [parse_filter_condition] takes the first operator of
    ['>=', '<=', '>', '<', '='], in that order, that occurs anywhere in the
    text, splits the text at the first occurrence of that operator into two
    parts and returns the two parts with surrounding whitespace removed,
    with the operator between them; so ["price>500"] gives
    [("price", ">", "500")] and ["brand = apple"] gives
    [("brand", "=", "apple")]. *)
Theorem parse_filter_condition_selects_and_splits :
  (∀ text op, selected_operator op text →
     ∃ part0 part1,
       first_occurrence op text part0 part1 ∧
       parse_filter_condition text = Return (strip part0, op, strip part1) ∧
       trimmed part0 (strip part0) ∧ trimmed part1 (strip part1)) ∧
  parse_filter_condition (py "price>500") = Return (py "price", py ">", py "500") ∧
  parse_filter_condition (py "brand = apple") = Return (py "brand", py "=", py "apple").
Proof.
  split_and!; [|reflexivity..].
  intros text op Hsel.
  destruct (parse_filter_condition_selected _ _ Hsel) as (a & b & Hfirst & Hres).
  exists a, b. split_and!; [done | done | apply strip_trimmed..].
Qed.

Lemma parse_filter_condition_selects_and_splits_witness :
  ∃ part0 part1,
    first_occurrence (py "=") (py "brand = apple") part0 part1 ∧
    parse_filter_condition (py "brand = apple")
      = Return (strip part0, py "=", strip part1) ∧
    trimmed part0 (strip part0) ∧ trimmed part1 (strip part1).
Proof.
  apply (proj1 parse_filter_condition_selects_and_splits).
  apply select_operator_Some. reflexivity.
Defined.

(** C8 fails on the code: [">"] splits into two empty parts and is parsed
    all the same, as [("", ">", "")]. *)
Lemma empty_parts_are_accepted :
  parse_filter_condition (py ">") = Return ([], py ">", []) ∧
  ¬ filter_condition_rejected_as_specified (py ">").
Proof.
  split; [reflexivity|]. intros [_ Hrej].
  assert (parse_filter_condition (py ">") = SysExit InvalidConditionFormat) as H; [|done].
  apply Hrej. right. exists (py ">"), [], []. split_and!.
  - apply select_operator_Some. reflexivity.
  - split; [reflexivity|]. intros; simpl; lia.
  - by left.
Qed.

(** C8, amended: [parse_filter_condition] fails with
    [InvalidConditionFormat] exactly when none of the operators
    ['>=', '<=', '>', '<', '='] occurs in the text; for every other text it
    returns a triple, whether or not the trimmed parts are empty. *)
Theorem parse_filter_condition_fails_iff_no_operator text :
  (parse_filter_condition text = SysExit InvalidConditionFormat ↔ no_operator text) ∧
  (no_operator text ∨
   ∃ column op value, parse_filter_condition text = Return (column, op, value)).
Proof.
  destruct (operator_selection text) as [Hno | [op Hsel]].
  - split; [|by left]. split; [done|]. intros _. by apply parse_filter_loop_none.
  - destruct (parse_filter_condition_selected _ _ Hsel) as (a & b & _ & Hres).
    split; [|right; eauto]. rewrite Hres. split; [done|].
    intros Hno. destruct Hsel as (earlier & later & Hops & Hocc & _).
    exfalso. apply (Hno op); [|done]. rewrite Hops. apply elem_of_app. right. left.
Qed.

(** ** [parse_aggregate_condition] *)

(** C7 fails on the code: ["=avg"] has an empty left part and is parsed all
    the same, as [("", "avg")]. *)
Lemma empty_column_is_accepted :
  parse_aggregate_condition (py "=avg") = Return ([], py "avg") ∧
  ¬ aggregate_condition_parsed_as_specified (py "=avg").
Proof.
  split; [reflexivity|]. intros [Hrej _].
  assert (parse_aggregate_condition (py "=avg") = SysExit InvalidConditionFormat) as H; [|done].
  apply Hrej. intros (part0 & part1 & Htext & Hleft & _ & Hne & _).
  destruct part0 as [|c part0]; [done|].
  injection Htext as <- _. apply Hleft. by exists [], part0.
Qed.

Lemma parse_aggregate_condition_absent text :
  ¬ occurs (py "=") text →
  parse_aggregate_condition text = SysExit InvalidConditionFormat.
Proof. intros H%str_in_false. unfold parse_aggregate_condition. by rewrite H. Qed.

Lemma parse_aggregate_condition_present text part0 part1 :
  first_occurrence (py "=") text part0 part1 →
  parse_aggregate_condition text =
    if bool_decide (strip part1 ∈ aggregate_operations)
    then Return (strip part0, strip part1)
    else SysExit UnknownOperation.
Proof.
  intros Hfirst. unfold parse_aggregate_condition.
  assert (occurs (py "=") text) as Hocc by (destruct Hfirst as [-> _]; by eexists _, _).
  apply str_in_spec in Hocc as Hin. rewrite Hin. simpl negb. cbv iota.
  destruct (split1_occurs _ _ Hocc) as (a & b & -> & Hfirst').
  destruct (first_occurrence_unique _ _ _ _ _ _ Hfirst Hfirst') as [<- <-].
  fold aggregate_operations. by destruct (bool_decide _).
Qed.

(** C7, amended: [parse_aggregate_condition] fails with
    [InvalidConditionFormat] exactly when the text contains no ['=']; a text
    with an ['='] is split at the first one and both parts are trimmed
    (either may be empty, and further ['='] stay in the right part); it then
    fails with [UnknownOperation] unless the trimmed right part is exactly
    one of [avg], [min], [max], and otherwise returns the two trimmed
    parts as (column, operation). *)
Theorem parse_aggregate_condition_outcomes text :
  (parse_aggregate_condition text = SysExit InvalidConditionFormat ↔
   ¬ occurs (py "=") text) ∧
  (∀ part0 part1, first_occurrence (py "=") text part0 part1 →
     (strip part1 ∈ aggregate_operations →
      parse_aggregate_condition text = Return (strip part0, strip part1)) ∧
     (strip part1 ∉ aggregate_operations →
      parse_aggregate_condition text = SysExit UnknownOperation)).
Proof.
  split.
  - split; [|apply parse_aggregate_condition_absent].
    intros Hres Hocc. apply split1_occurs in Hocc as (a & b & _ & Hfirst).
    rewrite (parse_aggregate_condition_present _ _ _ Hfirst) in Hres.
    by destruct (bool_decide _).
  - intros part0 part1 Hfirst.
    rewrite (parse_aggregate_condition_present _ _ _ Hfirst).
    split; intros H.
    + by rewrite bool_decide_eq_true_2.
    + by rewrite bool_decide_eq_false_2.
Qed.

Lemma parse_aggregate_condition_outcomes_witness :
  parse_aggregate_condition (py "price = avg") = Return (py "price", py "avg") ∧
  parse_aggregate_condition (py "price=invalid") = SysExit UnknownOperation ∧
  parse_aggregate_condition (py "invalid_format") = SysExit InvalidConditionFormat.
Proof.
  split_and!.
  - apply (proj1 (proj2 (parse_aggregate_condition_outcomes (py "price = avg"))
                    (py "price ") (py " avg")
                    (partition_first_Some (py "=") (py "price = avg") _ _ eq_refl))).
    apply (proj1 (bool_decide_eq_true _)). reflexivity.
  - apply (proj2 (proj2 (parse_aggregate_condition_outcomes (py "price=invalid"))
                    (py "price") (py "invalid")
                    (partition_first_Some (py "=") (py "price=invalid") _ _ eq_refl))).
    apply (proj1 (bool_decide_eq_false _)). reflexivity.
  - apply (proj2 (proj1 (parse_aggregate_condition_outcomes (py "invalid_format")))).
    apply str_in_false. reflexivity.
Defined.

End Parsers.

(* ===================================================================== *)
(** * Facts about float comparison *)
(* ===================================================================== *)

Section FloatFacts.

Implicit Types (x y z : float).

Lemma SFcompare_swap x y : SFcompare y x = CompOpp <$> SFcompare x y.
Proof.
  destruct x as [[]|[]| |[] mx ex], y as [[]|[]| |[] my ey]; try reflexivity; simpl;
    rewrite (Z.compare_antisym ex ey);
    change (Pos.compare_cont Eq my mx) with (my ?= mx)%positive;
    change (Pos.compare_cont Eq mx my) with (mx ?= my)%positive;
    rewrite (Pos.compare_antisym mx my);
    destruct (ex ?= ey); simpl; try reflexivity;
    destruct (mx ?= my)%positive; reflexivity.
Qed.

Lemma SFcompare_refl x : is_nan x = false → SFcompare x x = Some Eq.
Proof.
  destruct x as [[]|[]| |[] m e]; try done; intros _; simpl;
    rewrite Z.compare_refl; change (Pos.compare_cont Eq m m) with (m ?= m)%positive;
    by rewrite Pos.compare_refl.
Qed.

Lemma SFcompare_nan x y : is_nan x = false → is_nan y = false → is_Some (SFcompare x y).
Proof. destruct x as [[]|[]| |[] ? ?], y as [[]|[]| |[] ? ?]; by eauto. Qed.

Lemma float_eqb_compare x y : float_eqb x y = true ↔ SFcompare x y = Some Eq.
Proof. unfold float_eqb, SFeqb. destruct (SFcompare x y) as [[]|]; simpl; intuition congruence. Qed.

Lemma float_ltb_compare x y : float_ltb x y = true ↔ SFcompare x y = Some Lt.
Proof. unfold float_ltb, SFltb. destruct (SFcompare x y) as [[]|]; simpl; intuition congruence. Qed.

Lemma float_gtb_compare x y : float_gtb x y = true ↔ SFcompare x y = Some Gt.
Proof.
  unfold float_gtb, SFltb. rewrite SFcompare_swap.
  destruct (SFcompare x y) as [[]|]; simpl; intuition congruence.
Qed.

Lemma float_leb_compare x y :
  float_leb x y = true ↔ SFcompare x y = Some Lt ∨ SFcompare x y = Some Eq.
Proof. unfold float_leb, SFleb. destruct (SFcompare x y) as [[]|]; simpl; intuition congruence. Qed.

Lemma float_eqb_refl x : is_nan x = false → float_eqb x x = true.
Proof. intros H. by apply float_eqb_compare, SFcompare_refl. Qed.

Lemma float_leb_refl x : is_nan x = false → float_leb x x = true.
Proof. intros H. apply float_leb_compare. right. by apply SFcompare_refl. Qed.

(** Among numbers, "not smaller" is "greater or equal". *)
Lemma float_ltb_false_leb x y :
  is_nan x = false → is_nan y = false → float_ltb x y = false → float_leb y x = true.
Proof.
  intros Hx Hy. unfold float_ltb, float_leb, SFltb, SFleb. rewrite (SFcompare_swap x y).
  destruct (SFcompare_nan x y Hx Hy) as [c ->]. by destruct c.
Qed.

Lemma float_ltb_leb x y : float_ltb x y = true → float_leb x y = true.
Proof. unfold float_ltb, float_leb, SFltb, SFleb. by destruct (SFcompare x y) as [[]|]. Qed.

Local Ltac order_cases :=
  repeat match goal with
    | |- context [(?a ?= ?b)%Z] => destruct (Z.compare_spec a b)
    | H : context [(?a ?= ?b)%Z] |- _ => destruct (Z.compare_spec a b)
    | |- context [(?a ?= ?b)%positive] => destruct (Pos.compare_spec a b)
    | H : context [(?a ?= ?b)%positive] |- _ => destruct (Pos.compare_spec a b)
    end;
  simpl in *; try done; try lia.

Lemma float_leb_trans x y z :
  float_leb x y = true → float_leb y z = true → float_leb x z = true.
Proof.
  unfold float_leb, SFleb.
  destruct x as [[]|[]| |[] mx ex], y as [[]|[]| |[] my ey], z as [[]|[]| |[] mz ez];
    try done; simpl;
    repeat match goal with
      | |- context [Pos.compare_cont Eq ?a ?b] =>
          change (Pos.compare_cont Eq a b) with (a ?= b)%positive
      end;
    intros H1 H2; order_cases.
Qed.

(** ** Whitespace around a numeral *)

Lemma isspace_c_ascii (c : N) : isspace_c c = true → (c <? 127)%N = true ∧ (c <? 128)%N = true.
Proof.
  unfold isspace_c. rewrite orb_true_iff, andb_true_iff, !N.leb_le, N.eqb_eq, !N.ltb_lt. lia.
Qed.

Lemma to_ascii_digits_and_spaces_app_l (l s : str) :
  Forall (λ c, isspace_c c = true) l →
  to_ascii_digits_and_spaces (l ++ s) = l ++ to_ascii_digits_and_spaces s.
Proof.
  induction 1 as [|c l Hc _ IH]; simpl; [done|].
  apply isspace_c_ascii in Hc as [-> _]. by rewrite IH.
Qed.

Lemma to_ascii_digits_and_spaces_app_r (s r : str) :
  Forall (λ c, isspace_c c = true) r →
  ∃ r', Forall (λ c, isspace_c c = true) r' ∧
        to_ascii_digits_and_spaces (s ++ r) = to_ascii_digits_and_spaces s ++ r'.
Proof.
  intros Hr. induction s as [|c s (r' & Hr' & IH)]; simpl.
  - exists r. split; [done|]. rewrite <- (app_nil_r r) at 1.
    rewrite to_ascii_digits_and_spaces_app_l by done. by rewrite app_nil_r.
  - destruct (c <? 127)%N; [exists r'; by rewrite IH|].
    destruct (isspace c); [exists r'; by rewrite IH|].
    destruct (unicode_decimal c); [exists r'; by rewrite IH|].
    exists []. split; [constructor | done].
Qed.

Lemma forallb_ascii_padding (l : str) :
  Forall (λ c, isspace_c c = true) l → forallb (λ c, c <? 128)%N l = true.
Proof.
  induction 1 as [|c l Hc _ IH]; simpl; [done|].
  apply isspace_c_ascii in Hc as [_ ->]. done.
Qed.

(** ASCII whitespace around a text does not change what [float] makes of
    it. *)
Lemma float_of_str_padded (l s r : str) :
  Forall (λ c, isspace_c c = true) l → Forall (λ c, isspace_c c = true) r →
  float_of_str (l ++ s ++ r) = float_of_str s.
Proof.
  intros Hl Hr. unfold float_of_str.
  assert (rstrip_by isspace_c (lstrip_by isspace_c (transform_decimal_and_space (l ++ s ++ r)))
          = rstrip_by isspace_c (lstrip_by isspace_c (transform_decimal_and_space s))) as ->; [|done].
  unfold transform_decimal_and_space.
  rewrite !forallb_app, (forallb_ascii_padding l), (forallb_ascii_padding r) by done.
  rewrite andb_true_r. simpl.
  destruct (forallb (λ c, c <? 128)%N s).
  - by apply strip_by_padded.
  - rewrite to_ascii_digits_and_spaces_app_l by done.
    destruct (to_ascii_digits_and_spaces_app_r s r Hr) as (r' & Hr' & ->).
    by apply strip_by_padded.
Qed.

(** ** Rounding never turns a positive integer into zero *)

Lemma digits2_pos_lower p : 2 ^ (Zpos (digits2_pos p) - 1) ≤ Zpos p.
Proof.
  induction p as [p IH|p IH|]; simpl digits2_pos; [| |done];
    rewrite Pos2Z.inj_succ;
    replace (Z.succ (Z.pos (digits2_pos p)) - 1) with (Z.succ (Z.pos (digits2_pos p) - 1)) by lia;
    rewrite Z.pow_succ_r by lia; lia.
Qed.

Lemma digits2_pos_iter_xO p k :
  Zpos (digits2_pos (Pos.iter xO p k)) = Zpos (digits2_pos p) + Zpos k.
Proof.
  induction k as [|k IH] using Pos.peano_ind.
  - simpl. lia.
  - rewrite Pos.iter_succ. simpl digits2_pos. lia.
Qed.

Lemma iter_pos_nat {A} (f : A → A) (n : positive) (a : A) :
  SpecFloat.iter_pos f n a = Nat.iter (Pos.to_nat n) f a.
Proof.
  revert a. induction n as [n IH|n IH|]; intros a; simpl SpecFloat.iter_pos.
  - rewrite !IH, Pos2Nat.inj_xI, <- Nat.iter_succ_r.
    replace (S (2 * Pos.to_nat n))%nat with (Pos.to_nat n + S (Pos.to_nat n))%nat by lia.
    by rewrite Nat.iter_add.
  - rewrite !IH, Pos2Nat.inj_xO.
    replace (2 * Pos.to_nat n)%nat with (Pos.to_nat n + Pos.to_nat n)%nat by lia.
    by rewrite Nat.iter_add.
  - done.
Qed.

Lemma shr_1_m mrs : 0 ≤ shr_m mrs → shr_m (shr_1 mrs) = shr_m mrs / 2.
Proof.
  destruct mrs as [m r s]. simpl. intros Hm. rewrite <- Z.div2_div.
  by destruct m as [|[p|p|]|p].
Qed.

Lemma shr_iter_m k mrs :
  0 ≤ shr_m mrs → shr_m (Nat.iter k shr_1 mrs) = shr_m mrs / 2 ^ Z.of_nat k.
Proof.
  intros Hm. induction k as [|k IH].
  - simpl. by rewrite Z.div_1_r.
  - rewrite Nat.iter_succ, shr_1_m, IH.
    + rewrite Nat2Z.inj_succ, Z.pow_succ_r, Z.div_div by lia. f_equal. lia.
    + rewrite IH. apply Z.div_pos; lia.
Qed.

Lemma shr_record_of_loc_m m l : shr_m (shr_record_of_loc m l) = m.
Proof. by destruct l as [|[]]. Qed.

(** Shifting to the canonical exponent leaves a positive mantissa
    positive, when the number is not below the smallest exponent. *)
Lemma shr_fexp_pos m e l :
  0 < m → SpecFloat.emin prec emax < e + Zdigits2 m →
  0 < shr_m (fst (shr_fexp prec emax m e l)) ∧
  SpecFloat.emin prec emax ≤ snd (shr_fexp prec emax m e l).
Proof.
  intros Hm He. unfold shr_fexp, shr.
  destruct m as [|p|p]; [lia | | lia]. simpl Zdigits2 in *.
  pose proof (digits2_pos_lower p) as Hlow.
  set (d := Zpos (digits2_pos p)) in *.
  assert (fexp prec emax (d + e) = Z.max (d + e - prec) (SpecFloat.emin prec emax)) as Hfexp by done.
  destruct (fexp prec emax (d + e) - e) as [|n|n] eqn:Hn; simpl fst; simpl snd.
  - rewrite shr_record_of_loc_m. lia.
  - rewrite iter_pos_nat, shr_iter_m, shr_record_of_loc_m, positive_nat_Z;
      [|rewrite shr_record_of_loc_m; lia].
    split; [|lia]. apply Z.div_str_pos. split; [lia|].
    etrans; [|exact Hlow]. apply Z.pow_le_mono_r; [lia|]. unfold prec in *. lia.
  - rewrite shr_record_of_loc_m. lia.
Qed.

Lemma round_nearest_even_ge m l : m ≤ round_nearest_even m l.
Proof. destruct l as [|[]]; simpl; try lia. destruct (Z.even m); lia. Qed.

Lemma Zdigits2_pos m : 0 < m → 0 < Zdigits2 m.
Proof. by destruct m. Qed.

Lemma binary_round_aux_nonzero sx m e l s :
  0 < m → SpecFloat.emin prec emax < e + Zdigits2 m →
  binary_round_aux prec emax sx m e l ≠ S754_zero s.
Proof.
  intros Hm He. unfold binary_round_aux.
  destruct (shr_fexp_pos m e l Hm He) as [Hm' He'].
  destruct (shr_fexp prec emax m e l) as [mrs' e']. simpl fst in *; simpl snd in *.
  set (m1 := round_nearest_even (shr_m mrs') (loc_of_shr_record mrs')).
  assert (0 < m1) as Hm1 by (pose proof (round_nearest_even_ge (shr_m mrs') (loc_of_shr_record mrs')); lia).
  destruct (shr_fexp_pos m1 e' loc_Exact Hm1) as [Hm'' _].
  { pose proof (Zdigits2_pos m1 Hm1). lia. }
  destruct (shr_fexp prec emax m1 e' loc_Exact) as [mrs'' e'']. simpl fst in *.
  destruct (shr_m mrs'') as [|p|p]; [lia | | lia].
  by destruct (e'' <=? emax - prec).
Qed.

Lemma float_of_int_nonzero n s : 0 < n → float_of_int n ≠ S754_zero s.
Proof.
  destruct n as [|p|p]; [lia | | lia]. intros _.
  unfold float_of_int, binary_normalize, binary_round.
  destruct (shl_align p 0 (fexp prec emax (Z.pos (digits2_pos p) + 0))) as [mz ez] eqn:Hal.
  apply binary_round_aux_nonzero; [done|].
  unfold shl_align in Hal.
  destruct (fexp prec emax (Z.pos (digits2_pos p) + 0) - 0) as [|k|k] eqn:Hk;
    injection Hal as <- <-; simpl Zdigits2.
  - unfold SpecFloat.emin, prec, emax. lia.
  - unfold SpecFloat.emin, prec, emax. lia.
  - rewrite digits2_pos_iter_xO. unfold SpecFloat.emin, prec, emax in *. lia.
Qed.

(** ** The floats of the module are valid binary64 numbers *)

Abbreviation emin := (SpecFloat.emin prec emax).
Abbreviation fexp := (SpecFloat.fexp prec emax).

Lemma Zdigits2_log2 m : 0 < m → Zdigits2 m = Z.log2 m + 1.
Proof.
  destruct m as [|p|p]; [lia | | lia]. intros _. simpl Zdigits2.
  destruct p as [p|p|]; simpl; [| |done]; rewrite Pos2Z.inj_succ;
    (assert (digits2_pos p = Pos.size p) as -> by (induction p; simpl; congruence)); lia.
Qed.

Lemma Zdigits2_shiftr m n :
  0 < m → 0 ≤ n → 0 < m / 2 ^ n → Zdigits2 (m / 2 ^ n) = Zdigits2 m - n.
Proof.
  intros Hm Hn Hq. rewrite !Zdigits2_log2 by done.
  rewrite <- Z.shiftr_div_pow2 by done. rewrite Z.log2_shiftr by done.
  assert (2 ^ n ≤ m) as Hle.
  { destruct (Z.le_gt_cases (2 ^ n) m) as [?|Hlt]; [done|].
    rewrite Z.div_small in Hq by lia. lia. }
  apply Z.log2_le_pow2 in Hle; lia.
Qed.

Lemma fexp_eq e : fexp e = Z.max (e - prec) emin.
Proof. done. Qed.

(** What [shr_fexp] does to mantissa and exponent. *)
Lemma shr_fexp_m m e l :
  0 ≤ m →
  let n := Z.max 0 (fexp (Zdigits2 m + e) - e) in
  shr_m (fst (shr_fexp prec emax m e l)) = m / 2 ^ n ∧
  snd (shr_fexp prec emax m e l) = e + n.
Proof.
  intros Hm n. unfold shr_fexp, shr. subst n.
  destruct (fexp (Zdigits2 m + e) - e) as [|k|k] eqn:Hk; simpl fst; simpl snd.
  - rewrite shr_record_of_loc_m, Z.div_1_r. lia.
  - rewrite iter_pos_nat, shr_iter_m, shr_record_of_loc_m, positive_nat_Z;
      [|by rewrite shr_record_of_loc_m].
    rewrite Z.max_r by lia. done.
  - rewrite shr_record_of_loc_m, Z.div_1_r. lia.
Qed.

(** Rounding a mantissa that has enough digits gives a valid float. *)
Lemma binary_round_aux_valid sx m e l :
  0 < m → e ≤ fexp (Zdigits2 m + e) →
  valid_binary prec emax (binary_round_aux prec emax sx m e l) = true.
Proof.
  intros Hm He. unfold binary_round_aux.
  destruct (shr_fexp_m m e l) as [Hm' He']; [lia|].
  destruct (shr_fexp prec emax m e l) as [mrs' e']. simpl fst in *; simpl snd in *.
  rewrite Z.max_r in Hm', He' by lia.
  set (m1 := round_nearest_even (shr_m mrs') (loc_of_shr_record mrs')).
  pose proof (round_nearest_even_ge (shr_m mrs') (loc_of_shr_record mrs')) as Hge.
  fold m1 in Hge.
  assert (0 ≤ shr_m mrs') as Hm'0 by (rewrite Hm'; apply Z.div_pos; lia).
  destruct (shr_fexp_m m1 e' loc_Exact) as [Hm'' He'']; [lia|].
  destruct (shr_fexp prec emax m1 e' loc_Exact) as [mrs'' e''].
  simpl fst in *; simpl snd in *.
  destruct (shr_m mrs'') as [|p|p] eqn:Hp; [done | | done].
  destruct (e'' <=? emax - prec) eqn:Hbound; [|done].
  unfold valid_binary, bounded, canonical_mantissa. rewrite Hbound, andb_true_r.
  apply Z.eqb_eq.
  assert (0 < m1) as Hm1.
  { destruct (Z.le_gt_cases m1 0) as [Hle|?]; [|done].
    assert (m1 = 0) as H0 by lia. rewrite H0 in Hm''. rewrite Z.div_0_l in Hm''; [lia|].
    apply Z.pow_nonzero; lia. }
  (* the second shift is by a non-negative amount *)
  assert (e' ≤ fexp (Zdigits2 m1 + e')) as Hn2.
  { pose proof (fexp_eq (Zdigits2 m + e)) as HE.
    pose proof (fexp_eq (Zdigits2 m1 + e')) as HE1.
    destruct (Z.max_spec (Zdigits2 m + e - prec) emin) as [[? Hmax]|[? Hmax]]; [lia|].
    assert (0 < shr_m mrs') as Hpos'.
    { rewrite Hm'. apply Z.div_str_pos. split; [apply Z.pow_pos_nonneg; lia|].
      rewrite Zdigits2_log2 in * by done.
      apply Z.log2_le_pow2; [lia|]. unfold prec in *. lia. }
    assert (Zdigits2 (shr_m mrs') = Zdigits2 m - (fexp (Zdigits2 m + e) - e)) as Hd'.
    { rewrite Hm'. apply Zdigits2_shiftr; [done | lia | by rewrite <- Hm']. }
    assert (Zdigits2 (shr_m mrs') ≤ Zdigits2 m1) as Hmono.
    { rewrite !Zdigits2_log2 by lia. apply Z.add_le_mono_r, Z.log2_le_mono. lia. }
    lia. }
  rewrite Z.max_r in He'', Hm'' by lia.
  change (Z.pos (digits2_pos p)) with (Zdigits2 (Z.pos p)).
  rewrite Hm'', Zdigits2_shiftr; [| done | lia | lia].
  replace (Zdigits2 m1 - (fexp (Zdigits2 m1 + e') - e') + e'') with (Zdigits2 m1 + e') by lia.
  lia.
Qed.

Lemma binary_round_valid sx p e :
  valid_binary prec emax (binary_round prec emax sx p e) = true.
Proof.
  unfold binary_round.
  destruct (shl_align p e (fexp (Z.pos (digits2_pos p) + e))) as [mz ez] eqn:Hal.
  apply binary_round_aux_valid; [done|].
  unfold shl_align in Hal.
  destruct (fexp (Z.pos (digits2_pos p) + e) - e) as [|k|k] eqn:Hk;
    injection Hal as <- <-; simpl Zdigits2.
  - lia.
  - lia.
  - rewrite digits2_pos_iter_xO.
    replace (Z.pos (digits2_pos p) + Z.pos k + fexp (Z.pos (digits2_pos p) + e))
      with (Z.pos (digits2_pos p) + e) by lia.
    lia.
Qed.

Lemma binary_normalize_valid m e szero :
  valid_binary prec emax (binary_normalize prec emax m e szero) = true.
Proof. destruct m; [done | apply binary_round_valid..]. Qed.

Lemma SFopp_valid x : valid_binary prec emax (SFopp x) = valid_binary prec emax x.
Proof. by destruct x. Qed.

(** Every float that [float(str)] returns is a binary64 number in
    canonical form. *)
Lemma float_of_str_valid s x :
  float_of_str s = Some x → valid_binary prec emax x = true.
Proof.
  assert (∀ neg m e, valid_binary prec emax (float_of_decimal neg m e) = true) as Hdec.
  { intros neg m e. unfold float_of_decimal, nearest_float.
    destruct (m =? 0); [done|].
    destruct neg; rewrite ?SFopp_valid; destruct (0 <=? e); apply binary_normalize_valid. }
  unfold float_of_str.
  destruct (rstrip_by isspace_c _) as [|c t]; [done|].
  destruct (remove_underscores 0%N (c :: t)) as [text|]; [simpl|done].
  destruct (parse_inf_or_nan text) as [y|] eqn:Hspecial.
  - intros [= <-]. unfold parse_inf_or_nan in Hspecial.
    destruct (take_sign text) as [neg body].
    destruct (_ || _); [by injection Hspecial as <-|].
    destruct (str_eqb _ _); [by injection Hspecial as <-|done].
  - unfold parse_decimal. destruct (take_sign text) as [neg s1].
    destruct (take_digits s1) as [int_part s2].
    destruct (match s2 with 46%N :: s2' => take_digits s2' | _ => ([], s2) end)
      as [frac_part s3].
    destruct (int_part ++ frac_part) as [|d ds]; [done|].
    destruct s3 as [|c' s4]; [by intros [= <-]|].
    destruct (_ || _); [|done].
    destruct (take_sign s4) as [eneg s5].
    destruct (take_digits s5) as [[|e1 es] [|??]]; try done.
    by intros [= <-].
Qed.

(** *** Division by one *)

Lemma div_eucl_div_mod a b : Z.div_eucl a b = (a / b, a mod b).
Proof. unfold Z.div, Z.modulo. by destruct (Z.div_eucl a b). Qed.

Lemma SFdiv_core_by_one mx ex :
  canonical_mantissa prec emax mx ex = true →
  SFdiv_core_binary prec emax (Z.pos mx) ex 4503599627370496 (-52)
  = (Z.pos mx, ex, loc_Exact) ∨
  SFdiv_core_binary prec emax (Z.pos mx) ex 4503599627370496 (-52)
  = (Z.pos mx~0, ex - 1, loc_Exact).
Proof.
  unfold canonical_mantissa. intros Hcan%Z.eqb_eq.
  unfold SFdiv_core_binary.
  change (Zdigits2 4503599627370496) with 53. simpl Zdigits2.
  set (d := Z.pos (digits2_pos mx)) in *.
  pose proof (fexp_eq (d + ex)) as H1. pose proof (fexp_eq (d + ex - (53 + -52))) as H2.
  set (e' := Z.min (fexp (d + ex - (53 + -52))) (ex - -52)).
  assert (e' = ex ∨ e' = ex - 1) as [He'|He'] by (unfold prec in *; lia).
  - left. replace (ex - -52 - e') with 52 by lia.
    rewrite div_eucl_div_mod, Z.shiftl_mul_pow2 by lia.
    change (2 ^ 52) with 4503599627370496.
    rewrite Z.div_mul, Z.mod_mul by done. by rewrite He'.
  - right. replace (ex - -52 - e') with 53 by lia.
    rewrite div_eucl_div_mod, Z.shiftl_mul_pow2 by lia.
    change (2 ^ 53) with (2 * 4503599627370496).
    rewrite Z.mul_assoc, Z.div_mul, Z.mod_mul by done.
    rewrite He'. by rewrite (Z.mul_comm (Z.pos mx) 2).
Qed.

Lemma binary_round_aux_canonical sx mx ex :
  bounded prec emax mx ex = true →
  binary_round_aux prec emax sx (Z.pos mx) ex loc_Exact = S754_finite sx mx ex.
Proof.
  unfold bounded, canonical_mantissa. intros [Hcan%Z.eqb_eq Hb]%andb_true_iff.
  unfold binary_round_aux, shr_fexp. simpl Zdigits2.
  rewrite Hcan, Z.sub_diag. simpl. rewrite Hcan, Z.sub_diag. simpl. by rewrite Hb.
Qed.

Lemma binary_round_aux_canonical_double sx mx ex :
  bounded prec emax mx ex = true →
  binary_round_aux prec emax sx (Z.pos mx~0) (ex - 1) loc_Exact = S754_finite sx mx ex.
Proof.
  unfold bounded, canonical_mantissa. intros [Hcan%Z.eqb_eq Hb]%andb_true_iff.
  unfold binary_round_aux, shr_fexp. simpl Zdigits2.
  replace (Z.pos (Pos.succ (digits2_pos mx)) + (ex - 1)) with (Z.pos (digits2_pos mx) + ex) by lia.
  rewrite Hcan. replace (ex - (ex - 1)) with 1 by lia. simpl.
  replace (ex - 1 + 1) with ex by lia.
  rewrite Hcan, Z.sub_diag. simpl. by rewrite Hb.
Qed.

(** Dividing a number by 1.0 gives the number. *)
Lemma SFdiv_by_one x :
  valid_binary prec emax x = true → is_nan x = false →
  float_eqb (SFdiv prec emax x (float_of_int 1)) x = true.
Proof.
  intros Hvalid Hnan.
  change (float_of_int 1) with (S754_finite false 4503599627370496 (-52)).
  destruct x as [s|s| |s m e]; [by destruct s.. | done |].
  simpl in Hvalid. unfold SFdiv.
  assert (canonical_mantissa prec emax m e = true) as Hcan
    by (unfold bounded in Hvalid; by apply andb_true_iff in Hvalid as [? _]).
  rewrite xorb_false_r.
  destruct (SFdiv_core_by_one m e Hcan) as [-> | ->].
  - rewrite binary_round_aux_canonical by done. by apply float_eqb_refl.
  - rewrite binary_round_aux_canonical_double by done. by apply float_eqb_refl.
Qed.

(** The average of a single value is that value. *)
Lemma average_of_one x :
  valid_binary prec emax x = true → is_nan x = false →
  float_eqb (SFdiv prec emax (py_sum [x]) (float_of_int 1)) x = true.
Proof.
  intros Hvalid Hnan. destruct x as [s|s| |s m e]; [by destruct s.. | done |].
  by apply SFdiv_by_one.
Qed.

End FloatFacts.

(* ===================================================================== *)
(** * Filtering *)
(* ===================================================================== *)

Section Filtering.

Implicit Types (self : CSVProcessor) (r : row) (column operator value cell target : str).

Lemma numeric_test_holds operator x y :
  numeric_test operator x y = true ↔ numeric_holds operator x y.
Proof.
  unfold numeric_test, numeric_holds.
  rewrite <- float_gtb_compare, <- float_ltb_compare, <- float_eqb_compare.
  destruct (decide (operator = py ">")) as [->|Hgt].
  { simpl. destruct (float_gtb x y); simpl; intuition discriminate. }
  destruct (decide (operator = py "<")) as [->|Hlt].
  { simpl. destruct (float_ltb x y); simpl; intuition discriminate. }
  destruct (decide (operator = py "=")) as [->|Heq].
  { simpl. destruct (float_eqb x y); simpl; intuition discriminate. }
  rewrite (str_eqb_ne operator (py ">")), (str_eqb_ne operator (py "<")),
    (str_eqb_ne operator (py "=")) by done.
  simpl. intuition discriminate.
Qed.

Lemma text_test_holds operator a b :
  text_test operator a b = true ↔ lexicographic_holds operator a b.
Proof.
  unfold text_test, lexicographic_holds, str_gtb.
  rewrite <- !str_ltb_lex, <- (str_eqb_eq a b).
  destruct (decide (operator = py "=")) as [->|Heq].
  { simpl. destruct (str_eqb a b); simpl; intuition discriminate. }
  destruct (decide (operator = py ">")) as [->|Hgt].
  { simpl. destruct (str_ltb b a); simpl; intuition discriminate. }
  destruct (decide (operator = py "<")) as [->|Hlt].
  { simpl. destruct (str_ltb a b); simpl; intuition discriminate. }
  rewrite (str_eqb_ne operator (py ">")), (str_eqb_ne operator (py "<")),
    (str_eqb_ne operator (py "=")) by done.
  simpl. intuition discriminate.
Qed.

(** C1: when the cell and the target both parse as floats, the filter
    predicate is the numeric comparison of the two numbers (for ['='], float
    equality); when either does not parse, it is the lexicographic,
    code-point-wise comparison of the two texts.  In particular "apple" is
    not greater than "samsung". *)
Theorem row_matches_numeric_else_lexicographic :
  (∀ cell operator target,
     (∀ x y, float_of_str cell = Some x → float_of_str target = Some y →
             (row_matches cell operator target = true ↔ numeric_holds operator x y)) ∧
     (float_of_str cell = None ∨ float_of_str target = None →
      (row_matches cell operator target = true ↔
       lexicographic_holds operator cell target))) ∧
  row_matches (py "apple") (py ">") (py "samsung") = false.
Proof.
  split; [|reflexivity]. intros cell operator target. unfold row_matches. split.
  - intros x y -> ->. apply numeric_test_holds.
  - intros [-> | Htarget].
    + apply text_test_holds.
    + rewrite Htarget. destruct (float_of_str cell); apply text_test_holds.
Qed.

Lemma row_matches_numeric_else_lexicographic_witness :
  (row_matches (py "999") (py ">") (py "500") = true ↔
   numeric_holds (py ">") (S754_finite false 8787296929185792 (-43))
                          (S754_finite false 8796093022208000 (-44))) ∧
  (row_matches (py "xiaomi") (py ">") (py "apple") = true ↔
   lexicographic_holds (py ">") (py "xiaomi") (py "apple")).
Proof.
  split.
  - apply (proj1 (proj1 row_matches_numeric_else_lexicographic
                    (py "999") (py ">") (py "500"))); reflexivity.
  - apply (proj2 (proj1 row_matches_numeric_else_lexicographic
                    (py "xiaomi") (py ">") (py "apple"))). left. reflexivity.
Defined.

(** The two operators the parser accepts and the loop body has no branch
    for. *)
Lemma row_matches_other_operator cell operator target :
  operator ≠ py ">" → operator ≠ py "<" → operator ≠ py "=" →
  row_matches cell operator target = false.
Proof.
  intros Hgt Hlt Heq. unfold row_matches, numeric_test, text_test.
  rewrite (str_eqb_ne operator (py ">")), (str_eqb_ne operator (py "<")),
    (str_eqb_ne operator (py "=")) by done.
  by destruct (float_of_str cell), (float_of_str target).
Qed.

Lemma loaded_lookup self r h :
  loaded self → r ∈ data self → h ∈ headers self → is_Some (r !! h).
Proof.
  intros Hload Hr Hh. unfold loaded in Hload.
  rewrite Forall_forall in Hload. specialize (Hload r Hr).
  rewrite Forall_forall in Hload. by apply Hload.
Qed.

Lemma loaded_decide self :
  bool_decide (loaded self) = true → loaded self.
Proof. apply bool_decide_eq_true_1. Qed.

Lemma filter_body_cell column operator value acc r cell :
  r !! column = Some cell →
  filter_body column operator value acc r
  = Return (if row_matches cell operator value then acc ++ [r] else acc).
Proof.
  intros Hcell. unfold filter_body, getitem. rewrite Hcell. simpl.
  by destruct (row_matches cell operator value).
Qed.

(** The loop of [filter_data] over rows that all have the column. *)
Lemma for_each_filter_body column operator value rows acc :
  (∀ r, r ∈ rows → is_Some (r !! column)) →
  for_each (filter_body column operator value) acc rows
  = Return (acc ++ List.filter (keeps column operator value) rows).
Proof.
  revert acc. induction rows as [|r rows IH]; intros acc Hcol.
  - simpl. by rewrite app_nil_r.
  - destruct (Hcol r) as [cell Hcell]; [left|].
    rewrite for_each_cons, (filter_body_cell _ _ _ _ _ _ Hcell), bind_Return.
    rewrite IH by (intros; apply Hcol; by right).
    assert (keeps column operator value r = row_matches cell operator value) as Hk.
    { unfold keeps. by rewrite Hcell. }
    cbn [List.filter]. rewrite Hk.
    destruct (row_matches cell operator value); [|done]. by rewrite <- app_assoc.
Qed.

(** Over any rows, the loop returns the rows to keep or stops at a row
    without the column. *)
Lemma for_each_filter_body_outcome column operator value rows acc :
  for_each (filter_body column operator value) acc rows
  = Return (acc ++ List.filter (keeps column operator value) rows) ∨
  for_each (filter_body column operator value) acc rows = Raise KeyError.
Proof.
  revert acc. induction rows as [|r rows IH]; intros acc.
  - left. simpl. by rewrite app_nil_r.
  - rewrite for_each_cons. destruct (r !! column) as [cell|] eqn:Hcell.
    + rewrite (filter_body_cell _ _ _ _ _ _ Hcell), bind_Return.
      assert (keeps column operator value r = row_matches cell operator value) as Hk.
      { unfold keeps. by rewrite Hcell. }
      cbn [List.filter]. rewrite Hk.
      destruct (row_matches cell operator value); [|apply IH].
      destruct (IH (acc ++ [r])) as [-> | ->]; [left | by right].
      by rewrite <- app_assoc.
    + right. unfold filter_body, getitem. by rewrite Hcell.
Qed.

Lemma filter_data_outcome self column operator value :
  column ∈ headers self →
  filter_data self column operator value
  = Return (List.filter (keeps column operator value) (data self)) ∨
  filter_data self column operator value = Raise KeyError.
Proof.
  intros Hcol. unfold filter_data. rewrite bool_decide_eq_true_2 by done. simpl negb.
  cbv iota. apply (for_each_filter_body_outcome column operator value (data self) []).
Qed.

Lemma filter_data_loaded self column operator value :
  loaded self → column ∈ headers self →
  filter_data self column operator value
  = Return (List.filter (keeps column operator value) (data self)).
Proof.
  intros Hload Hcol. unfold filter_data. rewrite bool_decide_eq_true_2 by done. simpl.
  apply (for_each_filter_body column operator value (data self) []).
  intros r Hr. by apply (loaded_lookup self).
Qed.

Lemma filter_data_unknown self column operator value :
  column ∉ headers self → filter_data self column operator value = SysExit UnknownColumn.
Proof. intros Hcol. unfold filter_data. by rewrite bool_decide_eq_false_2. Qed.

Lemma sublist_filter_bool {A} (p : A → bool) (l : list A) : sublist (List.filter p l) l.
Proof.
  induction l as [|x l IH]; simpl; [constructor|].
  destruct (p x); by constructor.
Qed.

Lemma elem_of_filter_bool {A} (p : A → bool) (l : list A) (x : A) :
  x ∈ List.filter p l ↔ x ∈ l ∧ p x = true.
Proof. rewrite !list_elem_of_In. apply filter_In. Qed.

(** C5: [filter_data] fails with [UnknownColumn] exactly when the column
    is not a header; otherwise, on a loaded table, it returns exactly the
    rows whose cell in that column satisfies the predicate, each as often as
    it occurs, in their original order. *)
Theorem filter_data_stable self column operator value :
  (filter_data self column operator value = SysExit UnknownColumn ↔
   column ∉ headers self) ∧
  (loaded self → column ∈ headers self →
   ∃ rows,
     filter_data self column operator value = Return rows ∧
     rows = List.filter (keeps column operator value) (data self) ∧
     sublist rows (data self) ∧
     ∀ r, r ∈ rows ↔
          r ∈ data self ∧
          ∃ cell, r !! column = Some cell ∧ row_matches cell operator value = true).
Proof.
  split.
  - split; [|apply filter_data_unknown].
    intros Hres Hcol.
    destruct (filter_data_outcome self column operator value Hcol) as [H|H]; congruence.
  - intros Hload Hcol. eexists. split_and!; [by apply filter_data_loaded | done | ..].
    + apply sublist_filter_bool.
    + intros r. rewrite elem_of_filter_bool. unfold keeps.
      destruct (r !! column) as [cell|].
      * split; [intros [? ?]; eauto | by intros [? (? & [= <-] & ?)]].
      * split; [by intros [? ?] | by intros [? (? & ? & ?)]].
Qed.

Lemma filter_bool_nil {A} (p : A → bool) (l : list A) :
  (∀ x, p x = false) → List.filter p l = [].
Proof. intros Hp. induction l as [|x l IH]; simpl; [done|]. by rewrite Hp. Qed.

(** C4: with the operator ['>='] or ['<='], which [parse_filter_condition]
    accepts, the predicate holds for no cell and no target, so filtering a
    column of any table selects no row: on a loaded table the result is the
    empty list, and on no table is a row returned. *)
Theorem filter_data_ge_le_selects_nothing self column operator value :
  column ∈ headers self → operator ∈ [py ">="; py "<="] →
  (∀ cell target, row_matches cell operator target = false) ∧
  (∀ rows, filter_data self column operator value = Return rows → rows = []) ∧
  (loaded self → filter_data self column operator value = Return []) ∧
  parse_filter_condition (py "price" ++ operator ++ py "500")
  = Return (py "price", operator, py "500").
Proof.
  intros Hcol Hop.
  assert (∀ cell target, row_matches cell operator target = false) as Hnever.
  { intros cell target. apply row_matches_other_operator.
    all: intros ->; by repeat (apply elem_of_cons in Hop as [Hop|Hop]; [done|]);
      apply elem_of_nil in Hop. }
  assert (List.filter (keeps column operator value) (data self) = []) as Hnil.
  { apply filter_bool_nil. intros r. unfold keeps. by destruct (r !! column). }
  split_and!; [done | | |].
  - intros rows Hres.
    destruct (filter_data_outcome self column operator value Hcol) as [H|H]; congruence.
  - intros Hload. by rewrite filter_data_loaded, Hnil.
  - by repeat (apply elem_of_cons in Hop as [->|Hop]; [reflexivity|]);
      apply elem_of_nil in Hop.
Qed.

Lemma filter_data_ge_le_selects_nothing_witness :
  (∀ cell target, row_matches cell (py ">=") target = false) ∧
  (∀ rows, filter_data phones (py "price") (py ">=") (py "500") = Return rows →
           rows = []) ∧
  (loaded phones → filter_data phones (py "price") (py ">=") (py "500") = Return []) ∧
  parse_filter_condition (py "price" ++ py ">=" ++ py "500")
  = Return (py "price", py ">=", py "500").
Proof.
  apply filter_data_ge_le_selects_nothing.
  - apply (proj1 (bool_decide_eq_true _)). reflexivity.
  - apply (proj1 (bool_decide_eq_true _)). reflexivity.
Defined.

(** C6 fails on the code: a cell that reads ["nan"] is a number that is
    equal to no number, so filtering for it returns nothing. *)
Lemma nan_cell_is_not_selected :
  loaded (single_column [py "nan"]) ∧
  filter_data (single_column [py "nan"]) (py "x") (py "=") (py "nan") = Return [] ∧
  ¬ own_value_selected (single_column [py "nan"]).
Proof.
  split_and!; [apply loaded_decide; reflexivity | reflexivity |].
  intros Hsel.
  destruct (Hsel {[ py "x" := py "nan" ]} (py "x") (py "nan")) as (rows & Hres & Hin).
  - apply (proj1 (bool_decide_eq_true _)). reflexivity.
  - apply (proj1 (bool_decide_eq_true _)). reflexivity.
  - reflexivity.
  - vm_compute in Hres. injection Hres as <-. by apply elem_of_nil in Hin.
Qed.

Lemma row_matches_own_value cell :
  float_of_str cell ≠ Some S754_nan → row_matches cell (py "=") cell = true.
Proof.
  intros Hnan. unfold row_matches.
  destruct (float_of_str cell) as [x|].
  - unfold numeric_test. rewrite float_eqb_refl; [done|].
    by destruct x.
  - unfold text_test. by rewrite !str_eqb_refl.
Qed.

(** C6, amended: on a loaded table, filtering column [col] with ['='] for
    the cell a row has in that column returns that row, provided the cell
    does not parse as the float NaN. *)
Theorem filter_data_own_value self r column cell :
  loaded self → r ∈ data self → column ∈ headers self → r !! column = Some cell →
  float_of_str cell ≠ Some S754_nan →
  ∃ rows, filter_data self column (py "=") cell = Return rows ∧ r ∈ rows.
Proof.
  intros Hload Hr Hcol Hcell Hnan. eexists. split; [by apply filter_data_loaded|].
  apply elem_of_filter_bool. split; [done|].
  unfold keeps. rewrite Hcell. by apply row_matches_own_value.
Qed.

Lemma filter_data_own_value_witness :
  ∃ rows, filter_data phones (py "price") (py "=") (py "999") = Return rows ∧
          phone "iphone 15 pro" "apple" "999" "4.9" ∈ rows.
Proof.
  apply filter_data_own_value.
  - apply loaded_decide. reflexivity.
  - apply (proj1 (bool_decide_eq_true _)). reflexivity.
  - apply (proj1 (bool_decide_eq_true _)). reflexivity.
  - reflexivity.
  - discriminate.
Defined.

Lemma filter_data_stable_witness :
  ∃ rows,
     filter_data phones (py "brand") (py ">") (py "apple") = Return rows ∧
     rows = List.filter (keeps (py "brand") (py ">") (py "apple")) (data phones) ∧
     sublist rows (data phones) ∧
     ∀ r, r ∈ rows ↔
          r ∈ data phones ∧
          ∃ cell, r !! py "brand" = Some cell ∧
                  row_matches cell (py ">") (py "apple") = true.
Proof.
  apply (proj2 (filter_data_stable phones (py "brand") (py ">") (py "apple"))).
  - apply loaded_decide. reflexivity.
  - apply (proj1 (bool_decide_eq_true _)). reflexivity.
Defined.

End Filtering.

(* ===================================================================== *)
(** * Aggregation *)
(* ===================================================================== *)

Section Aggregation.

Implicit Types (self : CSVProcessor) (r : row) (column operation cell : str).
Implicit Types (x y lo hi : float) (xs : list float).

(** ** The loop that converts the column *)

Lemma column_values_loaded self column :
  loaded self → column ∈ headers self →
  Forall2 (λ r cell, r !! column = Some cell) (data self) (column_values self column).
Proof.
  intros Hload Hcol. unfold column_values.
  assert (∀ r, r ∈ data self → is_Some (r !! column)) as Hrows
    by (intros; by apply (loaded_lookup self)).
  induction (data self) as [|r rows IH]; simpl; [constructor|].
  destruct (Hrows r) as [cell Hcell]; [left|]. rewrite Hcell.
  constructor; [done|]. apply IH. intros; apply Hrows; by right.
Qed.

Lemma column_values_length self column :
  loaded self → column ∈ headers self →
  length (column_values self column) = length (data self).
Proof.
  intros Hload Hcol. symmetry.
  by apply (Forall2_length _ _ _ (column_values_loaded self column Hload Hcol)).
Qed.

Lemma collect_body_cell column acc r cell :
  r !! column = Some cell →
  collect_body column acc r
  = match float_of_str cell with
    | Some x => Return (acc ++ [x])
    | None => SysExit NonNumericColumn
    end.
Proof. intros Hcell. unfold collect_body, getitem. by rewrite Hcell. Qed.

Lemma for_each_collect_body column rows cells acc :
  Forall2 (λ r cell, r !! column = Some cell) rows cells →
  for_each (collect_body column) acc rows
  = match mapM float_of_str cells with
    | Some xs => Return (acc ++ xs)
    | None => SysExit NonNumericColumn
    end.
Proof.
  intros Hcells. revert acc.
  induction Hcells as [|r cell rows cells Hcell _ IH]; intros acc.
  - simpl. by rewrite app_nil_r.
  - rewrite for_each_cons, (collect_body_cell _ _ _ _ Hcell).
    cbn [mapM]. destruct (float_of_str cell) as [x|]; [|done].
    rewrite bind_Return, IH. simpl.
    destruct (mapM float_of_str cells) as [xs|]; simpl; [|done].
    by rewrite <- app_assoc.
Qed.

Lemma aggregate_data_loaded self column operation :
  loaded self → column ∈ headers self →
  aggregate_data self column operation
  = match mapM float_of_str (column_values self column) with
    | Some xs => aggregate_values column operation xs
    | None => SysExit NonNumericColumn
    end.
Proof.
  intros Hload Hcol. unfold aggregate_data. rewrite bool_decide_eq_true_2 by done.
  simpl negb. cbv iota.
  rewrite (for_each_collect_body column _ _ [] (column_values_loaded _ _ Hload Hcol)).
  by destruct (mapM float_of_str (column_values self column)).
Qed.

(** ** The three operations on a non-empty list *)

Lemma aggregate_values_avg column x xs :
  aggregate_values column (py "avg") (x :: xs)
  = Return {| res_operation := py "Average"; res_column := column;
              res_value := SFdiv prec emax (py_sum (x :: xs))
                             (float_of_int (Z.of_nat (length (x :: xs)))) |}.
Proof.
  unfold aggregate_values. rewrite str_eqb_refl. unfold float_truediv.
  pose proof (float_of_int_nonzero (Z.of_nat (length (x :: xs)))) as Hnz.
  destruct (float_of_int (Z.of_nat (length (x :: xs)))) as [s| | |]; [|done..].
  destruct (Hnz s); [simpl; lia | done].
Qed.

Lemma aggregate_values_min column x xs :
  ∃ lo, py_min (x :: xs) = Some lo ∧
        aggregate_values column (py "min") (x :: xs)
        = Return {| res_operation := py "Minimum"; res_column := column; res_value := lo |}.
Proof. eexists. split; reflexivity. Qed.

Lemma aggregate_values_max column x xs :
  ∃ hi, py_max (x :: xs) = Some hi ∧
        aggregate_values column (py "max") (x :: xs)
        = Return {| res_operation := py "Maximum"; res_column := column; res_value := hi |}.
Proof. eexists. split; reflexivity. Qed.

Lemma aggregate_values_returns column operation x xs :
  operation ∈ aggregate_operations →
  ∃ result, aggregate_values column operation (x :: xs) = Return result.
Proof.
  intros Hop. unfold aggregate_operations in Hop.
  repeat (apply elem_of_cons in Hop as [->|Hop]).
  - rewrite aggregate_values_avg. eauto.
  - destruct (aggregate_values_min column x xs) as (? & _ & ->). eauto.
  - destruct (aggregate_values_max column x xs) as (? & _ & ->). eauto.
  - by apply elem_of_nil in Hop.
Qed.

Lemma aggregate_data_returns self column operation :
  loaded self → column ∈ headers self → operation ∈ aggregate_operations →
  numeric_column self column → column_values self column ≠ [] →
  ∃ result, aggregate_data self column operation = Return result.
Proof.
  intros Hload Hcol Hop Hnum%mapM_is_Some_2 Hne. rewrite aggregate_data_loaded by done.
  destruct Hnum as [xs Hxs]. rewrite Hxs.
  destruct xs as [|x xs]; [|by apply aggregate_values_returns].
  apply mapM_Some_1, Forall2_nil_inv_r in Hxs. done.
Qed.

(** C3: for the operations [avg], [min] and [max] on a column of a loaded
    table, the aggregate fails with [NonNumericColumn] as soon as one cell
    does not parse as a float, whatever the other cells are; it fails with
    [EmptyColumn] when the column has no cell, which is when the table has
    no row; in every other case it returns a result. *)
Theorem aggregate_data_failures self column operation :
  loaded self → column ∈ headers self → operation ∈ aggregate_operations →
  (Exists (λ cell, float_of_str cell = None) (column_values self column) →
   aggregate_data self column operation = SysExit NonNumericColumn) ∧
  (column_values self column = [] →
   aggregate_data self column operation = SysExit EmptyColumn) ∧
  (column_values self column = [] ↔ data self = []) ∧
  (numeric_column self column → column_values self column ≠ [] →
   ∃ result, aggregate_data self column operation = Return result).
Proof.
  intros Hload Hcol Hop. split_and!.
  - intros Hbad%mapM_None_2. by rewrite aggregate_data_loaded, Hbad.
  - intros Hnil. by rewrite aggregate_data_loaded, Hnil.
  - rewrite <- !length_zero_iff_nil. by rewrite column_values_length.
  - by apply aggregate_data_returns.
Qed.

Lemma aggregate_data_failures_witness :
  (Exists (λ cell, float_of_str cell = None) (column_values phones (py "price")) →
   aggregate_data phones (py "price") (py "avg") = SysExit NonNumericColumn) ∧
  (column_values phones (py "price") = [] →
   aggregate_data phones (py "price") (py "avg") = SysExit EmptyColumn) ∧
  (column_values phones (py "price") = [] ↔ data phones = []) ∧
  (numeric_column phones (py "price") → column_values phones (py "price") ≠ [] →
   ∃ result, aggregate_data phones (py "price") (py "avg") = Return result).
Proof.
  apply aggregate_data_failures.
  - apply loaded_decide. reflexivity.
  - apply (proj1 (bool_decide_eq_true _)). reflexivity.
  - apply (proj1 (bool_decide_eq_true _)). reflexivity.
Defined.

(** ** Minimum and maximum *)

Lemma fold_min_least rest x :
  is_nan x = false → Forall (λ y, is_nan y = false) rest →
  let lo := fold_left (λ cur item, if float_ltb item cur then item else cur) rest x in
  lo ∈ x :: rest ∧ float_leb lo x = true ∧ Forall (λ y, float_leb lo y = true) rest.
Proof.
  revert x. induction rest as [|y rest IH]; intros x Hx Hrest; simpl.
  - split_and!; [left | by apply float_leb_refl | constructor].
  - apply Forall_cons in Hrest as [Hy Hrest].
    set (x' := if float_ltb y x then y else x).
    assert (is_nan x' = false) as Hx' by (unfold x'; by destruct (float_ltb y x)).
    assert (float_leb x' x = true ∧ float_leb x' y = true) as [Hxx Hxy].
    { unfold x'. destruct (float_ltb y x) eqn:Hlt.
      - split; [by apply float_ltb_leb | by apply float_leb_refl].
      - split; [by apply float_leb_refl | by apply float_ltb_false_leb]. }
    destruct (IH x' Hx' Hrest) as (Hin & Hle & Hall). split_and!.
    + apply elem_of_cons in Hin as [->|Hin].
      * unfold x'. destruct (float_ltb y x); [right; left | left].
      * by do 2 right.
    + by apply (float_leb_trans _ x').
    + constructor; [by apply (float_leb_trans _ x') | done].
Qed.

Lemma fold_max_greatest rest x :
  is_nan x = false → Forall (λ y, is_nan y = false) rest →
  let hi := fold_left (λ cur item, if float_gtb item cur then item else cur) rest x in
  hi ∈ x :: rest ∧ float_leb x hi = true ∧ Forall (λ y, float_leb y hi = true) rest.
Proof.
  revert x. induction rest as [|y rest IH]; intros x Hx Hrest; simpl.
  - split_and!; [left | by apply float_leb_refl | constructor].
  - apply Forall_cons in Hrest as [Hy Hrest].
    set (x' := if float_gtb y x then y else x).
    assert (is_nan x' = false) as Hx' by (unfold x'; by destruct (float_gtb y x)).
    assert (float_leb x x' = true ∧ float_leb y x' = true) as [Hxx Hxy].
    { unfold x', float_gtb. fold (float_ltb x y). destruct (float_ltb x y) eqn:Hlt.
      - split; [by apply float_ltb_leb | by apply float_leb_refl].
      - split; [by apply float_leb_refl | by apply float_ltb_false_leb]. }
    destruct (IH x' Hx' Hrest) as (Hin & Hle & Hall). split_and!.
    + apply elem_of_cons in Hin as [->|Hin].
      * unfold x'. destruct (float_gtb y x); [right; left | left].
      * by do 2 right.
    + by apply (float_leb_trans _ x').
    + constructor; [by apply (float_leb_trans _ x') | done].
Qed.

Lemma py_min_least xs lo :
  Forall (λ y, is_nan y = false) xs → py_min xs = Some lo →
  lo ∈ xs ∧ ∀ y, y ∈ xs → float_leb lo y = true.
Proof.
  destruct xs as [|x rest]; [done|]. intros [Hx Hrest]%Forall_cons [= <-].
  destruct (fold_min_least rest x Hx Hrest) as (Hin & Hle & Hall).
  split; [done|]. intros y [->|Hy]%elem_of_cons; [done|].
  rewrite Forall_forall in Hall. by apply Hall.
Qed.

Lemma py_max_greatest xs hi :
  Forall (λ y, is_nan y = false) xs → py_max xs = Some hi →
  hi ∈ xs ∧ ∀ y, y ∈ xs → float_leb y hi = true.
Proof.
  destruct xs as [|x rest]; [done|]. intros [Hx Hrest]%Forall_cons [= <-].
  destruct (fold_max_greatest rest x Hx Hrest) as (Hin & Hle & Hall).
  split; [done|]. intros y [->|Hy]%elem_of_cons; [done|].
  rewrite Forall_forall in Hall. by apply Hall.
Qed.

Lemma aggregate_value_numeric self column operation xs :
  loaded self → column ∈ headers self →
  mapM float_of_str (column_values self column) = Some xs →
  aggregate_value self column operation
  = match aggregate_values column operation xs with
    | Return result => Some (res_value result)
    | _ => None
    end.
Proof.
  intros Hload Hcol Hxs. unfold aggregate_value.
  by rewrite aggregate_data_loaded, Hxs.
Qed.

(** C9 fails on the code: for the column 0.1, 0.1, 0.1 the sum rounds up
    and so does its third, so that the average is the float after 0.1,
    above the maximum. *)
Lemma average_above_maximum :
  loaded (single_column [py "0.1"; py "0.1"; py "0.1"]) ∧
  numeric_column (single_column [py "0.1"; py "0.1"; py "0.1"]) (py "x") ∧
  aggregate_value (single_column [py "0.1"; py "0.1"; py "0.1"]) (py "x") (py "avg")
  = Some (S754_finite false 7205759403792795 (-56)) ∧
  aggregate_value (single_column [py "0.1"; py "0.1"; py "0.1"]) (py "x") (py "max")
  = Some (S754_finite false 7205759403792794 (-56)) ∧
  ¬ min_avg_max_ordered (single_column [py "0.1"; py "0.1"; py "0.1"]) (py "x").
Proof.
  split_and!.
  - apply loaded_decide. reflexivity.
  - apply (proj1 (bool_decide_eq_true _)). reflexivity.
  - reflexivity.
  - reflexivity.
  - intros (lo & av & hi & _ & Hav & Hhi & _ & Hle).
    vm_compute in Hav. vm_compute in Hhi.
    injection Hav as <-. injection Hhi as <-. vm_compute in Hle. done.
Qed.

(** The same holds with the compensated [sum] of later CPython versions:
    on this column the two sums are the same float. *)
Lemma average_above_maximum_compensated :
  mapM float_of_str [py "0.1"; py "0.1"; py "0.1"]
  = Some (replicate 3 (S754_finite false 7205759403792794 (-56))) ∧
  py_sum_compensated (replicate 3 (S754_finite false 7205759403792794 (-56)))
  = py_sum (replicate 3 (S754_finite false 7205759403792794 (-56))).
Proof. split; reflexivity. Qed.

(** Two more columns out of order: a cell ["nan"] makes all three
    aggregates NaN, which is not below or equal to itself; two cells
    ["1e308"] add up to infinity, above the maximum. *)
Lemma nan_and_overflow_out_of_order :
  numeric_column (single_column [py "nan"]) (py "x") ∧
  ¬ min_avg_max_ordered (single_column [py "nan"]) (py "x") ∧
  numeric_column (single_column [py "1e308"; py "1e308"]) (py "x") ∧
  aggregate_value (single_column [py "1e308"; py "1e308"]) (py "x") (py "avg")
  = Some (S754_infinity false) ∧
  ¬ min_avg_max_ordered (single_column [py "1e308"; py "1e308"]) (py "x").
Proof.
  split_and!.
  - apply (proj1 (bool_decide_eq_true _)). reflexivity.
  - intros (lo & av & hi & Hlo & Hav & _ & Hle & _).
    vm_compute in Hlo. vm_compute in Hav.
    injection Hlo as <-. injection Hav as <-. vm_compute in Hle. done.
  - apply (proj1 (bool_decide_eq_true _)). reflexivity.
  - reflexivity.
  - intros (lo & av & hi & _ & Hav & Hhi & _ & Hle).
    vm_compute in Hav. vm_compute in Hhi.
    injection Hav as <-. injection Hhi as <-. vm_compute in Hle. done.
Qed.

(** C9, amended: for a loaded table and a column with at least one row
    whose cells all parse as floats other than NaN, the minimum and the
    maximum are values of the column and every value of the column lies
    between them, so that [min <= max]; the average is the float sum of the
    values from left to right divided by their number; it is equal to the
    minimum and the maximum when the column has one row, and has no
    guaranteed place between them otherwise. *)
Theorem aggregate_min_max_bound self column xs :
  loaded self → column ∈ headers self →
  mapM float_of_str (column_values self column) = Some xs → xs ≠ [] →
  Forall (λ x, is_nan x = false) xs →
  ∃ lo av hi,
    aggregate_value self column (py "min") = Some lo ∧
    aggregate_value self column (py "avg") = Some av ∧
    aggregate_value self column (py "max") = Some hi ∧
    av = SFdiv prec emax (py_sum xs) (float_of_int (Z.of_nat (length xs))) ∧
    lo ∈ xs ∧ hi ∈ xs ∧
    (∀ x, x ∈ xs → float_leb lo x = true ∧ float_leb x hi = true) ∧
    float_leb lo hi = true ∧
    (length xs = 1%nat → float_eqb av lo = true ∧ float_eqb av hi = true).
Proof.
  intros Hload Hcol Hxs Hne Hnan. destruct xs as [|x xs]; [done|].
  rewrite !(aggregate_value_numeric self column _ (x :: xs)) by done.
  destruct (aggregate_values_min column x xs) as (lo & Hlo & ->).
  destruct (aggregate_values_max column x xs) as (hi & Hhi & ->).
  rewrite aggregate_values_avg.
  destruct (py_min_least _ _ Hnan Hlo) as [Hlo_in Hlo_le].
  destruct (py_max_greatest _ _ Hnan Hhi) as [Hhi_in Hhi_le].
  eexists lo, _, hi. split_and!; try done.
  - intros y Hy. split; [by apply Hlo_le | by apply Hhi_le].
  - by apply Hlo_le.
  - destruct xs as [|? ?]; [intros _|done].
    injection Hlo as <-. injection Hhi as <-.
    assert (valid_binary prec emax x = true) as Hvalid.
    { apply mapM_Some_1 in Hxs. destruct (column_values self column) as [|cell cells];
        [by apply Forall2_nil_inv_l in Hxs|].
      apply Forall2_cons_1 in Hxs as [Hcell _]. by apply (float_of_str_valid cell). }
    apply Forall_cons in Hnan as [Hx _].
    split; by apply average_of_one.
Qed.

Lemma aggregate_min_max_bound_witness :
  ∃ lo av hi,
    aggregate_value phones (py "price") (py "min") = Some lo ∧
    aggregate_value phones (py "price") (py "avg") = Some av ∧
    aggregate_value phones (py "price") (py "max") = Some hi ∧
    av = SFdiv prec emax
           (py_sum [float_of_int 999; float_of_int 1199; float_of_int 199; float_of_int 299])
           (float_of_int 4) ∧
    lo ∈ [float_of_int 999; float_of_int 1199; float_of_int 199; float_of_int 299] ∧
    hi ∈ [float_of_int 999; float_of_int 1199; float_of_int 199; float_of_int 299] ∧
    (∀ x, x ∈ [float_of_int 999; float_of_int 1199; float_of_int 199; float_of_int 299] →
          float_leb lo x = true ∧ float_leb x hi = true) ∧
    float_leb lo hi = true ∧
    (length [float_of_int 999; float_of_int 1199; float_of_int 199; float_of_int 299]
     = 1%nat →
     float_eqb av lo = true ∧ float_eqb av hi = true).
Proof.
  apply (aggregate_min_max_bound phones (py "price")).
  - apply loaded_decide. reflexivity.
  - apply (proj1 (bool_decide_eq_true _)). reflexivity.
  - reflexivity.
  - discriminate.
  - repeat constructor.
Defined.

End Aggregation.

(* ===================================================================== *)
(** * The tests of the module, replayed *)
(* ===================================================================== *)

Section Tests.

Example test_filter_numeric_greater_than :
  filter_data phones (py "price") (py ">") (py "500")
  = Return [ phone "iphone 15 pro" "apple" "999" "4.9";
             phone "galaxy s23 ultra" "samsung" "1199" "4.8" ].
Proof. reflexivity. Qed.

Example test_filter_numeric_less_than :
  filter_data phones (py "price") (py "<") (py "300")
  = Return [ phone "redmi note 12" "xiaomi" "199" "4.6";
             phone "poco x5 pro" "xiaomi" "299" "4.4" ].
Proof. reflexivity. Qed.

Example test_filter_numeric_equal :
  filter_data phones (py "price") (py "=") (py "999")
  = Return [ phone "iphone 15 pro" "apple" "999" "4.9" ].
Proof. reflexivity. Qed.

Example test_filter_string_equal :
  filter_data phones (py "brand") (py "=") (py "xiaomi")
  = Return [ phone "redmi note 12" "xiaomi" "199" "4.6";
             phone "poco x5 pro" "xiaomi" "299" "4.4" ].
Proof. reflexivity. Qed.

Example test_filter_string_comparison :
  length <$> filter_data_rows phones (py "brand") (py ">") (py "apple") = Some 3%nat.
Proof. reflexivity. Qed.

Example test_filter_nonexistent_column :
  filter_data phones (py "nonexistent") (py "=") (py "value") = SysExit UnknownColumn.
Proof. reflexivity. Qed.

Example test_aggregate_average :
  aggregate_data phones (py "price") (py "avg")
  = Return {| res_operation := py "Average"; res_column := py "price";
              res_value := float_of_int 674 |}.
Proof. reflexivity. Qed.

Example test_aggregate_minimum :
  aggregate_data phones (py "price") (py "min")
  = Return {| res_operation := py "Minimum"; res_column := py "price";
              res_value := float_of_int 199 |}.
Proof. reflexivity. Qed.

Example test_aggregate_maximum :
  aggregate_data phones (py "price") (py "max")
  = Return {| res_operation := py "Maximum"; res_column := py "price";
              res_value := float_of_int 1199 |}.
Proof. reflexivity. Qed.

Example test_aggregate_nonexistent_column :
  aggregate_data phones (py "nonexistent") (py "avg") = SysExit UnknownColumn.
Proof. reflexivity. Qed.

Example test_aggregate_invalid_operation :
  aggregate_data phones (py "price") (py "invalid") = SysExit UnknownOperation.
Proof. reflexivity. Qed.

Example test_aggregate_non_numeric_column :
  aggregate_data phones (py "brand") (py "avg") = SysExit NonNumericColumn.
Proof. reflexivity. Qed.

Example test_parse_filter_condition :
  parse_filter_condition (py "price=999") = Return (py "price", py "=", py "999") ∧
  parse_filter_condition (py "price>500") = Return (py "price", py ">", py "500") ∧
  parse_filter_condition (py "rating<4.5") = Return (py "rating", py "<", py "4.5") ∧
  parse_filter_condition (py "brand = apple") = Return (py "brand", py "=", py "apple") ∧
  parse_filter_condition (py "invalid_condition") = SysExit InvalidConditionFormat.
Proof. split_and!; reflexivity. Qed.

Example test_parse_aggregate_condition :
  parse_aggregate_condition (py "price=avg") = Return (py "price", py "avg") ∧
  parse_aggregate_condition (py "price = avg") = Return (py "price", py "avg") ∧
  parse_aggregate_condition (py "invalid_format") = SysExit InvalidConditionFormat ∧
  parse_aggregate_condition (py "price=invalid") = SysExit UnknownOperation.
Proof. split_and!; reflexivity. Qed.

Example test_edge_cases :
  filter_data products (py "price") (py "=") (py "0")
  = Return [ product "product1" "electronics" "0" "true" ] ∧
  filter_data products (py "price") (py "<") (py "0")
  = Return [ product "product2" "books" "-5.99" "false" ] ∧
  filter_data products (py "price") (py ">") (py "50.0")
  = Return [ product "product3" "clothes" "100.50" "true" ] ∧
  aggregate_value products (py "price") (py "min") = float_of_str (py "-5.99") ∧
  aggregate_value products (py "price") (py "avg")
  = float_of_str (py "31.503333333333334").
Proof. split_and!; reflexivity. Qed.

End Tests.

(* ===================================================================== *)
(** * Texts that are numbers without looking like decimals *)
(* ===================================================================== *)

Section SpecialFloats.

(** C10: [float] also accepts ["nan"], ["inf"], ["-inf"], ["Infinity"] and
    numerals with whitespace around them, and the module takes such cells
    for numbers: a column that contains them is aggregated, with a NaN or
    infinite result, instead of failing with [NonNumericColumn], and the
    filter compares them as numbers, not as texts. *)
Theorem special_float_texts_are_numeric :
  (float_of_str (py "nan") = Some S754_nan ∧
   float_of_str (py "inf") = Some (S754_infinity false) ∧
   float_of_str (py "-inf") = Some (S754_infinity true) ∧
   float_of_str (py "Infinity") = Some (S754_infinity false) ∧
   ∀ l s r, Forall (λ c, isspace_c c = true) l → Forall (λ c, isspace_c c = true) r →
            float_of_str (l ++ s ++ r) = float_of_str s) ∧
  (aggregate_value (single_column [py "1"; py "nan"]) (py "x") (py "avg")
   = Some S754_nan ∧
   aggregate_value (single_column [py "1"; py "inf"]) (py "x") (py "avg")
   = Some (S754_infinity false) ∧
   aggregate_value (single_column [py "1"; py "-inf"]) (py "x") (py "min")
   = Some (S754_infinity true) ∧
   aggregate_value (single_column [py " 1 "; py "Infinity"]) (py "x") (py "max")
   = Some (S754_infinity false) ∧
   ∀ self column operation,
     loaded self → column ∈ headers self → operation ∈ aggregate_operations →
     column_values self column ≠ [] →
     Forall (λ cell, cell ∈ [py "nan"; py "inf"; py "-inf"; py "Infinity"])
            (column_values self column) →
     ∃ result, aggregate_data self column operation = Return result) ∧
  (row_matches (py "-inf") (py "<") (py "-5") = true ∧
   text_test (py "<") (py "-inf") (py "-5") = false ∧
   row_matches (py " 5 ") (py "=") (py "5") = true ∧
   text_test (py "=") (py " 5 ") (py "5") = false ∧
   row_matches (py "nan") (py "=") (py "nan") = false ∧
   text_test (py "=") (py "nan") (py "nan") = true ∧
   row_matches (py "inf") (py ">") (py "Infinity") = false ∧
   text_test (py ">") (py "inf") (py "Infinity") = true).
Proof.
  split_and!; try reflexivity.
  - apply float_of_str_padded.
  - intros self column operation Hload Hcol Hop Hne Hcells.
    apply aggregate_data_returns; try done.
    unfold numeric_column. eapply Forall_impl; [exact Hcells|].
    intros cell Hcell. simpl in Hcell.
    repeat (apply elem_of_cons in Hcell as [->|Hcell]; [by eexists|]).
    by apply elem_of_nil in Hcell.
Qed.

Lemma special_float_texts_are_numeric_witness :
  float_of_str (py " " ++ py "12.5" ++ py " ") = float_of_str (py "12.5").
Proof.
  apply (proj2 (proj2 (proj2 (proj2 (proj1 special_float_texts_are_numeric))))).
  - repeat constructor.
  - repeat constructor.
Defined.

End SpecialFloats.

(* ===================================================================== *)
(** * More about the condition parsers *)
(* ===================================================================== *)

Section ParsersMore.

Implicit Types (text op column value s pre rest : str) (c : N).

Lemma startswith_cons_ne c0 (sep' : str) c s :
  c ≠ c0 → startswith (c0 :: sep') (c :: s) = false.
Proof. intros Hne. simpl. by rewrite (proj2 (N.eqb_neq c0 c)). Qed.

Lemma str_in_app_absent c0 (sep' : str) pre rest :
  Forall (λ c, c ≠ c0) pre →
  str_in (c0 :: sep') (pre ++ rest) = str_in (c0 :: sep') rest.
Proof.
  induction 1 as [|c pre Hc _ IH]; [done|].
  cbn [app str_in]. by rewrite startswith_cons_ne.
Qed.

Lemma partition_first_app_absent c0 (sep' : str) pre rest :
  Forall (λ c, c ≠ c0) pre →
  partition_first (c0 :: sep') (pre ++ rest)
  = (λ '(a, b), (pre ++ a, b)) <$> partition_first (c0 :: sep') rest.
Proof.
  induction 1 as [|c pre Hc _ IH].
  - simpl. by destruct (partition_first (c0 :: sep') rest) as [[??]|].
  - cbn [app partition_first]. rewrite startswith_cons_ne by done.
    rewrite IH. by destruct (partition_first (c0 :: sep') rest) as [[??]|].
Qed.

Lemma partition_first_prefix c0 (sep' : str) rest :
  partition_first (c0 :: sep') ((c0 :: sep') ++ rest) = Some ([], rest).
Proof.
  cbn [app partition_first].
  assert (startswith (c0 :: sep') (c0 :: sep' ++ rest) = true) as ->.
  { apply startswith_spec. by exists rest. }
  change (c0 :: sep' ++ rest) with ((c0 :: sep') ++ rest). by rewrite drop_app_length.
Qed.

(** A separator whose first character does not occur before it is found
    right there. *)
Lemma partition_first_at c0 (sep' : str) pre rest :
  Forall (λ c, c ≠ c0) pre →
  partition_first (c0 :: sep') (pre ++ (c0 :: sep') ++ rest) = Some (pre, rest).
Proof.
  intros Hpre. rewrite partition_first_app_absent, partition_first_prefix by done.
  simpl. by rewrite app_nil_r.
Qed.

Lemma plain_absent s c0 :
  plain s → (c0 = 60 ∨ c0 = 61 ∨ c0 = 62)%N → Forall (λ c, c ≠ c0) s.
Proof.
  intros Hs Hc0. eapply Forall_impl; [exact Hs|]. simpl. intros c (? & ? & ?).
  destruct Hc0 as [->| [->| ->]]; done.
Qed.

Lemma startswith_plain c0 (sep' : str) s :
  plain s → (c0 = 60 ∨ c0 = 61 ∨ c0 = 62)%N → startswith (c0 :: sep') s = false.
Proof.
  intros Hs Hc0. destruct s as [|c s]; [done|].
  apply startswith_cons_ne. apply (plain_absent _ c0) in Hs; [|done].
  by apply Forall_cons in Hs as [? _].
Qed.

Lemma str_in_plain c0 (sep' : str) s :
  plain s → (c0 = 60 ∨ c0 = 61 ∨ c0 = 62)%N → str_in (c0 :: sep') s = false.
Proof.
  intros Hs Hc0. rewrite <- (app_nil_r s).
  by rewrite str_in_app_absent by (by apply plain_absent).
Qed.

Lemma startswith_cons_cons c0 (sep' : str) c s :
  startswith (c0 :: sep') (c :: s) = (c0 =? c)%N && startswith sep' s.
Proof. reflexivity. Qed.

Lemma str_in_cons (sub : str) c s :
  str_in sub (c :: s) = startswith sub (c :: s) || str_in sub s.
Proof. reflexivity. Qed.

Lemma parse_filter_loop_skip (o : str) (ops : list str) text :
  str_in o text = false →
  parse_filter_loop (o :: ops) text = parse_filter_loop ops text.
Proof. intros H. cbn [parse_filter_loop]. by rewrite H. Qed.

Lemma parse_filter_loop_hit (o : str) (ops : list str) text (a b : str) :
  partition_first o text = Some (a, b) →
  parse_filter_loop (o :: ops) text = Return (strip a, o, strip b).
Proof.
  intros H. cbn [parse_filter_loop].
  assert (str_in o text = true) as ->.
  { apply str_in_spec. apply partition_first_Some in H as [-> _]. by eexists _, _. }
  unfold split1. by rewrite H.
Qed.

Lemma operators_codes :
  operators = [[62; 61]; [60; 61]; [62]; [60]; [61]]%N.
Proof. reflexivity. Qed.

Local Ltac operator_char := first [by left | by right; left | by right; right].

(** [o] does not occur in [part0 ++ op ++ part1], [op] being written out. *)
Local Ltac operator_absent :=
  rewrite str_in_app_absent by (apply plain_absent; [done|operator_char]);
  cbn [app]; rewrite ?str_in_cons, ?startswith_cons_cons;
  rewrite ?startswith_plain, ?str_in_plain by (done || operator_char);
  reflexivity.

(** An operator between two plain texts is found again, with the two
    texts trimmed: no longer operator is seen where a shorter one was
    written, and none where there is none. *)
Theorem parse_filter_condition_round_trip (part0 op part1 : str) :
  op ∈ operators → plain part0 → plain part1 →
  parse_filter_condition (part0 ++ op ++ part1) = Return (strip part0, op, strip part1).
Proof.
  intros Hop H0 H1. unfold parse_filter_condition. rewrite operators_codes in *.
  repeat (apply elem_of_cons in Hop as [->|Hop]); [..|by apply elem_of_nil in Hop].
  all: repeat (rewrite parse_filter_loop_skip by operator_absent).
  all: apply parse_filter_loop_hit, partition_first_at, plain_absent;
         [done|operator_char].
Qed.

Lemma parse_filter_condition_round_trip_witness :
  parse_filter_condition (py "price " ++ py "<=" ++ py " 4.5")
  = Return (strip (py "price "), py "<=", strip (py " 4.5")).
Proof.
  apply parse_filter_condition_round_trip.
  - apply (proj1 (bool_decide_eq_true _)). reflexivity.
  - apply (proj1 (bool_decide_eq_true _)). reflexivity.
  - apply (proj1 (bool_decide_eq_true _)). reflexivity.
Defined.

(** What a parsed filter condition was made from. *)
Lemma parse_filter_condition_Return text column op value :
  parse_filter_condition text = Return (column, op, value) →
  selected_operator op text ∧
  ∃ part0 part1, first_occurrence op text part0 part1 ∧
                 column = strip part0 ∧ value = strip part1.
Proof.
  intros Hres. destruct (operator_selection text) as [Hno | [op' Hsel]].
  - unfold parse_filter_condition in Hres.
    by rewrite parse_filter_loop_none in Hres.
  - destruct (parse_filter_condition_selected _ _ Hsel) as (a & b & Hfirst & Hres').
    rewrite Hres' in Hres. injection Hres as <- <- <-.
    split; [done|]. by exists a, b.
Qed.

Lemma occurs_strip (sub : str) s : occurs sub (strip s) → occurs sub s.
Proof.
  intros (a & b & Hs). destruct (strip_trimmed s) as (l & r & Hlr & _).
  exists (l ++ a), (b ++ r). rewrite Hlr, Hs. by rewrite <- !app_assoc.
Qed.

Lemma first_occurrence_before (sep : str) text (before after : str) :
  sep ≠ [] → first_occurrence sep text before after → ¬ occurs sep before.
Proof.
  intros Hne [-> Hmin] (a & b & ->).
  specialize (Hmin a (b ++ sep ++ after)). rewrite <- !app_assoc in Hmin.
  specialize (Hmin eq_refl). rewrite !length_app in Hmin.
  destruct sep; [done|]. simpl in Hmin. lia.
Qed.

(** A parsed filter condition has one of the five operators; no operator
    with a higher priority occurs anywhere in the text, so that a text
    with ['<'] or ['>'] in it is never split at ['=']; and the column does
    not contain the operator. *)
Theorem parse_filter_condition_returns text column op value :
  parse_filter_condition text = Return (column, op, value) →
  op ∈ operators ∧
  (occurs (py "<") text ∨ occurs (py ">") text → op ≠ py "=") ∧
  (occurs (py ">=") text → op = py ">=") ∧
  ¬ occurs op column.
Proof.
  intros Hres.
  destruct (parse_filter_condition_Return _ _ _ _ Hres)
    as (Hsel & part0 & part1 & Hfirst & -> & ->).
  apply select_operator_Some in Hsel as Hfind. unfold select_operator in Hfind.
  assert (op ∈ operators) as Hop.
  { destruct Hsel as (earlier & later & -> & _). apply elem_of_app. right. left. }
  split_and!; [done | | |].
  - intros Hocc ->. rewrite operators_codes in Hfind. cbn [List.find] in Hfind.
    destruct (str_in [62; 61]%N text); [done|].
    destruct (str_in [60; 61]%N text); [done|].
    destruct (str_in [62]%N text) eqn:Hgt; [done|].
    destruct (str_in [60]%N text) eqn:Hlt; [done|].
    apply str_in_false in Hgt, Hlt. by destruct Hocc.
  - intros Hocc%str_in_spec. rewrite operators_codes in Hfind. cbn [List.find] in Hfind.
    change (py ">=") with [62; 61]%N in Hocc. rewrite Hocc in Hfind.
    by injection Hfind as <-.
  - intros Hocc%occurs_strip. revert Hocc. apply (first_occurrence_before _ text _ part1); [|done].
    rewrite operators_codes in Hop.
    by repeat (apply elem_of_cons in Hop as [->|Hop]); [..|by apply elem_of_nil in Hop].
Qed.

Lemma parse_filter_condition_returns_witness :
  py ">" ∈ operators ∧
  (occurs (py "<") (py "name=a>b") ∨ occurs (py ">") (py "name=a>b") →
   py ">" ≠ py "=") ∧
  (occurs (py ">=") (py "name=a>b") → py ">" = py ">=") ∧
  ¬ occurs (py ">") (py "name=a").
Proof. apply (parse_filter_condition_returns (py "name=a>b") _ _ (py "b")). reflexivity. Defined.

(** ** [parse_aggregate_condition] *)

(** A column without ['='] and one of the three operations, with any
    whitespace around the operation, are found again. *)
Theorem parse_aggregate_condition_round_trip (column operation l r : str) :
  Forall (λ c, c ≠ 61%N) column → operation ∈ aggregate_operations →
  Forall (λ c, isspace c = true) l → Forall (λ c, isspace c = true) r →
  parse_aggregate_condition (column ++ py "=" ++ l ++ operation ++ r)
  = Return (strip column, operation).
Proof.
  intros Hcol Hop Hl Hr.
  assert (first_occurrence (py "=") (column ++ py "=" ++ l ++ operation ++ r)
            column (l ++ operation ++ r)) as Hfirst.
  { apply partition_first_Some. change (py "=") with [61%N].
    by apply partition_first_at. }
  rewrite (parse_aggregate_condition_present _ _ _ Hfirst).
  assert (strip (l ++ operation ++ r) = operation) as ->.
  { unfold strip. rewrite strip_by_padded by done.
    unfold aggregate_operations in Hop.
    by repeat (apply elem_of_cons in Hop as [->|Hop]); [..|by apply elem_of_nil in Hop]. }
  by rewrite bool_decide_eq_true_2.
Qed.

Lemma parse_aggregate_condition_round_trip_witness :
  parse_aggregate_condition (py "price " ++ py "=" ++ py " " ++ py "max" ++ py "  ")
  = Return (strip (py "price "), py "max").
Proof.
  apply parse_aggregate_condition_round_trip.
  - apply (proj1 (bool_decide_eq_true _)). reflexivity.
  - apply (proj1 (bool_decide_eq_true _)). reflexivity.
  - apply (proj1 (bool_decide_eq_true _)). reflexivity.
  - apply (proj1 (bool_decide_eq_true _)). reflexivity.
Defined.

(** What a parsed aggregate condition was made from. *)
Lemma parse_aggregate_condition_Return text column operation :
  parse_aggregate_condition text = Return (column, operation) →
  operation ∈ aggregate_operations ∧
  ∃ part0 part1, first_occurrence (py "=") text part0 part1 ∧
                 column = strip part0 ∧ operation = strip part1.
Proof.
  intros Hres. destruct (str_in (py "=") text) eqn:Hin.
  - apply str_in_spec, split1_occurs in Hin as (a & b & _ & Hfirst).
    rewrite (parse_aggregate_condition_present _ _ _ Hfirst) in Hres.
    destruct (bool_decide (strip b ∈ aggregate_operations)) eqn:Hop; [|done].
    injection Hres as <- <-. apply bool_decide_eq_true in Hop.
    split; [done|]. by exists a, b.
  - apply str_in_false in Hin. by rewrite parse_aggregate_condition_absent in Hres.
Qed.

End ParsersMore.

(* ===================================================================== *)
(** * More about filtering *)
(* ===================================================================== *)

Section FilteringMore.

Implicit Types (self : CSVProcessor) (r : row) (column operator value cell target : str).

(** ** The three comparisons divide the rows *)

Lemma str_ltb_irrefl (a : str) : str_ltb a a = false.
Proof. induction a as [|x a IH]; simpl; [done|]. by rewrite N.ltb_irrefl. Qed.

(** Of [a < b], [a == b] and [a > b] exactly one holds. *)
Lemma str_trichotomy (a b : str) :
  (str_ltb a b = true ∧ str_eqb a b = false ∧ str_ltb b a = false) ∨
  (str_ltb a b = false ∧ str_eqb a b = true ∧ str_ltb b a = false) ∨
  (str_ltb a b = false ∧ str_eqb a b = false ∧ str_ltb b a = true).
Proof.
  revert b. induction a as [|x a IH]; intros [|y b]; simpl.
  - right; left. by rewrite str_eqb_refl.
  - left. by rewrite str_eqb_ne.
  - right; right. by rewrite str_eqb_ne.
  - destruct (N.ltb_spec x y) as [Hxy|Hxy].
    { left. rewrite (proj2 (N.ltb_ge y x)) by lia.
      rewrite str_eqb_ne by (intros [= ? ?]; lia). done. }
    destruct (N.ltb_spec y x) as [Hyx|Hyx].
    { right; right. rewrite str_eqb_ne by (intros [= ? ?]; lia). done. }
    assert (x = y) as -> by lia.
    destruct (IH b) as [(-> & Hne & ->) | [(-> & Heq & ->) | (-> & Hne & ->)]].
    + left. apply str_eqb_eq in Heq || idtac.
      rewrite str_eqb_ne; [done|]. intros [= ->]. by rewrite str_eqb_refl in Hne.
    + right; left. apply str_eqb_eq in Heq as ->. by rewrite str_eqb_refl.
    + right; right.
      rewrite str_eqb_ne; [done|]. intros [= ->]. by rewrite str_eqb_refl in Hne.
Qed.

(** Of [x < y], [x == y] and [x > y] exactly one holds between numbers. *)
Lemma float_trichotomy (x y : float) :
  is_nan x = false → is_nan y = false →
  (float_ltb x y = true ∧ float_eqb x y = false ∧ float_gtb x y = false) ∨
  (float_ltb x y = false ∧ float_eqb x y = true ∧ float_gtb x y = false) ∨
  (float_ltb x y = false ∧ float_eqb x y = false ∧ float_gtb x y = true).
Proof.
  intros Hx Hy. unfold float_ltb, float_eqb, float_gtb, SFltb, SFeqb.
  rewrite (SFcompare_swap x y). destruct (SFcompare_nan x y Hx Hy) as [c ->].
  destruct c; simpl; auto.
Qed.

Lemma float_compare_nan (x y : float) :
  is_nan x || is_nan y = true →
  float_ltb x y = false ∧ float_eqb x y = false ∧ float_gtb x y = false.
Proof. destruct x as [[]|[]| |[] ? ?], y as [[]|[]| |[] ? ?]; done. Qed.

Lemma numeric_test_operators (x y : float) :
  numeric_test (py "<") x y = float_ltb x y ∧
  numeric_test (py "=") x y = float_eqb x y ∧
  numeric_test (py ">") x y = float_gtb x y.
Proof.
  unfold numeric_test.
  change (str_eqb (py "<") (py ">")) with false.
  change (str_eqb (py "<") (py "<")) with true.
  change (str_eqb (py "=") (py ">")) with false.
  change (str_eqb (py "=") (py "<")) with false.
  change (str_eqb (py "=") (py "=")) with true.
  change (str_eqb (py ">") (py ">")) with true.
  change (str_eqb (py ">") (py "<")) with false.
  change (str_eqb (py ">") (py "=")) with false.
  simpl. by destruct (float_ltb x y), (float_eqb x y), (float_gtb x y).
Qed.

Lemma text_test_operators (a b : str) :
  text_test (py "<") a b = str_ltb a b ∧
  text_test (py "=") a b = str_eqb a b ∧
  text_test (py ">") a b = str_ltb b a.
Proof.
  unfold text_test, str_gtb.
  change (str_eqb (py "<") (py ">")) with false.
  change (str_eqb (py "<") (py "<")) with true.
  change (str_eqb (py "<") (py "=")) with false.
  change (str_eqb (py "=") (py "=")) with true.
  change (str_eqb (py ">") (py ">")) with true.
  change (str_eqb (py ">") (py "=")) with false.
  simpl. by destruct (str_ltb a b), (str_eqb a b), (str_ltb b a).
Qed.

(** A cell satisfies exactly one of ['<'], ['='] and ['>'] against a
    target, unless the two are numbers and one of them is NaN: then it
    satisfies none. *)
Lemma row_matches_trichotomy cell target :
  if compares_nan cell target then
    row_matches cell (py "<") target = false ∧
    row_matches cell (py "=") target = false ∧
    row_matches cell (py ">") target = false
  else
    (row_matches cell (py "<") target = true ∧
     row_matches cell (py "=") target = false ∧
     row_matches cell (py ">") target = false) ∨
    (row_matches cell (py "<") target = false ∧
     row_matches cell (py "=") target = true ∧
     row_matches cell (py ">") target = false) ∨
    (row_matches cell (py "<") target = false ∧
     row_matches cell (py "=") target = false ∧
     row_matches cell (py ">") target = true).
Proof.
  unfold compares_nan, row_matches.
  destruct (text_test_operators cell target) as (-> & -> & ->).
  destruct (float_of_str cell) as [x|]; [|apply str_trichotomy].
  destruct (float_of_str target) as [y|]; [|apply str_trichotomy].
  destruct (numeric_test_operators x y) as (-> & -> & ->).
  destruct (is_nan x || is_nan y) eqn:Hnan.
  - by apply float_compare_nan.
  - apply orb_false_iff in Hnan as [Hx Hy]. by apply float_trichotomy.
Qed.

(** On a loaded table, the rows selected by ['<'], by ['='] and by ['>']
    for one target are, together, the rows whose cell is not compared with
    a NaN, each once: no such row is lost or selected twice. *)
Theorem filter_data_three_ways self column target :
  loaded self → column ∈ headers self →
  ∃ lt eq gt,
    filter_data self column (py "<") target = Return lt ∧
    filter_data self column (py "=") target = Return eq ∧
    filter_data self column (py ">") target = Return gt ∧
    lt ++ eq ++ gt
    ≡ₚ List.filter (λ r, negb (compares_nan (get_or_empty r column) target)) (data self).
Proof.
  intros Hload Hcol. eexists _, _, _.
  split_and!; [by apply filter_data_loaded.. |].
  assert (∀ rows : list row, Forall (λ r, is_Some (r !! column)) rows →
    List.filter (keeps column (py "<") target) rows
    ++ List.filter (keeps column (py "=") target) rows
    ++ List.filter (keeps column (py ">") target) rows
    ≡ₚ List.filter (λ r, negb (compares_nan (get_or_empty r column) target)) rows) as Hrows.
  { intros rows Hall. induction Hall as [|r rows [cell Hcell] _ IH]; [done|].
    assert (∀ op, keeps column op target r = row_matches cell op target) as Hk
      by (intros; unfold keeps; by rewrite Hcell).
    assert (get_or_empty r column = cell) as Hg by (unfold get_or_empty; by rewrite Hcell).
    cbn [List.filter]. rewrite !Hk, Hg.
    pose proof (row_matches_trichotomy cell target) as Hone.
    destruct (compares_nan cell target); simpl.
    - by destruct Hone as (-> & -> & ->).
    - destruct Hone as [(-> & -> & ->) | [(-> & -> & ->) | (-> & -> & ->)]].
      + simpl. by constructor.
      + cbn [app]. rewrite <- Permutation_middle. by constructor.
      + rewrite app_assoc, <- Permutation_middle, <- app_assoc. by constructor. }
  apply Hrows. apply Forall_forall. intros r Hr. by apply (loaded_lookup self).
Qed.

Lemma filter_data_three_ways_witness :
  ∃ lt eq gt,
    filter_data phones (py "price") (py "<") (py "299") = Return lt ∧
    filter_data phones (py "price") (py "=") (py "299") = Return eq ∧
    filter_data phones (py "price") (py ">") (py "299") = Return gt ∧
    lt ++ eq ++ gt
    ≡ₚ List.filter (λ r, negb (compares_nan (get_or_empty r (py "price")) (py "299")))
                   (data phones).
Proof.
  apply filter_data_three_ways.
  - apply loaded_decide. reflexivity.
  - apply (proj1 (bool_decide_eq_true _)). reflexivity.
Defined.

(** ** Filtering a result again *)

Lemma with_data_loaded self (rows : list row) :
  loaded self → rows ⊆ data self → loaded (with_data self rows).
Proof.
  unfold loaded. simpl. rewrite !Forall_forall. intros Hload Hsub r Hr.
  apply Hload, Hsub, Hr.
Qed.

Lemma filter_bool_subseteq {A} (p : A → bool) (l : list A) : List.filter p l ⊆ l.
Proof. intros x Hx. by apply elem_of_filter_bool in Hx as [? _]. Qed.

Lemma filter_bool_comm {A} (p q : A → bool) (l : list A) :
  List.filter q (List.filter p l) = List.filter p (List.filter q l).
Proof.
  induction l as [|a l IH]; [done|]. cbn [List.filter].
  destruct (p a) eqn:Hp, (q a) eqn:Hq; cbn [List.filter]; rewrite ?Hp, ?Hq, IH; done.
Qed.

Lemma filter_bool_idemp {A} (p : A → bool) (l : list A) :
  List.filter p (List.filter p l) = List.filter p l.
Proof.
  induction l as [|a l IH]; [done|]. cbn [List.filter].
  destruct (p a) eqn:Hp; cbn [List.filter]; rewrite ?Hp, IH; done.
Qed.

(** Two conditions can be applied one after the other, by filtering the
    rows the first filter returned: on a loaded table both calls return,
    the order of the two conditions does not matter, the rows are those
    that both single filters return, and a condition applied a second time
    changes nothing. *)
Theorem filter_data_twice self (column1 operator1 value1 column2 operator2 value2 : str) :
  loaded self → column1 ∈ headers self → column2 ∈ headers self →
  ∃ rows1 rows2 both,
    filter_data self column1 operator1 value1 = Return rows1 ∧
    filter_data self column2 operator2 value2 = Return rows2 ∧
    filter_data (with_data self rows1) column2 operator2 value2 = Return both ∧
    filter_data (with_data self rows2) column1 operator1 value1 = Return both ∧
    (∀ r, r ∈ both ↔ r ∈ rows1 ∧ r ∈ rows2) ∧
    filter_data (with_data self rows1) column1 operator1 value1 = Return rows1.
Proof.
  intros Hload H1 H2. eexists _, _, _.
  split_and!; [by apply filter_data_loaded.. | | | |].
  - rewrite filter_data_loaded;
      [done | by apply with_data_loaded, filter_bool_subseteq | done].
  - rewrite filter_data_loaded;
      [| by apply with_data_loaded, filter_bool_subseteq | done].
    simpl. by rewrite filter_bool_comm.
  - intros r. simpl. rewrite !elem_of_filter_bool. tauto.
  - rewrite filter_data_loaded;
      [| by apply with_data_loaded, filter_bool_subseteq | done].
    simpl. by rewrite filter_bool_idemp.
Qed.

Lemma filter_data_twice_witness :
  ∃ rows1 rows2 both,
    filter_data phones (py "brand") (py "=") (py "xiaomi") = Return rows1 ∧
    filter_data phones (py "price") (py "<") (py "250") = Return rows2 ∧
    filter_data (with_data phones rows1) (py "price") (py "<") (py "250") = Return both ∧
    filter_data (with_data phones rows2) (py "brand") (py "=") (py "xiaomi") = Return both ∧
    (∀ r, r ∈ both ↔ r ∈ rows1 ∧ r ∈ rows2) ∧
    filter_data (with_data phones rows1) (py "brand") (py "=") (py "xiaomi") = Return rows1.
Proof.
  apply filter_data_twice.
  - apply loaded_decide. reflexivity.
  - apply (proj1 (bool_decide_eq_true _)). reflexivity.
  - apply (proj1 (bool_decide_eq_true _)). reflexivity.
Defined.

(** ** Rows without the cell *)

Lemma for_each_filter_body_missing column operator value (rows : list row) acc :
  Exists (λ r : row, r !! column = None) rows →
  for_each (filter_body column operator value) acc rows = Raise KeyError.
Proof.
  intros Hex. revert acc. induction rows as [|r rows IH]; intros acc.
  - by apply Exists_nil in Hex.
  - rewrite for_each_cons. destruct (r !! column) as [cell|] eqn:Hcell.
    + rewrite (filter_body_cell _ _ _ _ _ _ Hcell), bind_Return.
      apply IH. apply Exists_cons in Hex as [Hr|?]; [congruence | done].
    + unfold filter_body, getitem. by rewrite Hcell.
Qed.

(** [filter_data] reads the cell of the column in every row: for a column
    among the headers it raises [KeyError] exactly when some row has no
    such cell, wherever that row stands and whatever the other rows are,
    and returns the rows to keep otherwise; it has no other outcome. *)
Theorem filter_data_missing_cell self column operator value :
  column ∈ headers self →
  (filter_data self column operator value = Raise KeyError ↔
   Exists (λ r : row, r !! column = None) (data self)) ∧
  (Forall (λ r : row, is_Some (r !! column)) (data self) →
   filter_data self column operator value
   = Return (List.filter (keeps column operator value) (data self))).
Proof.
  intros Hcol.
  assert (filter_data self column operator value
          = for_each (filter_body column operator value) [] (data self)) as Hloop.
  { unfold filter_data. by rewrite bool_decide_eq_true_2. }
  assert (Forall (λ r : row, is_Some (r !! column)) (data self) →
          filter_data self column operator value
          = Return (List.filter (keeps column operator value) (data self))) as Hall.
  { intros Hall. rewrite Hloop.
    apply (for_each_filter_body column operator value (data self) []).
    by apply Forall_forall. }
  split; [|done]. split.
  - intros Hres.
    destruct (decide (Exists (λ r : row, r !! column = None) (data self))) as [|Hno];
      [done|].
    rewrite Hall in Hres; [done|].
    apply not_Exists_Forall in Hno; [|intros r; apply _].
    eapply Forall_impl; [exact Hno|]. simpl. intros r Hr.
    by destruct (r !! column); [eexists|].
  - intros Hex. rewrite Hloop. by apply for_each_filter_body_missing.
Qed.

Lemma filter_data_missing_cell_witness :
  filter_data {| filepath := []; headers := [py "a"; py "b"];
                 data := [ {[ py "a" := py "1"; py "b" := py "2" ]};
                           {[ py "a" := py "3" ]} ] |}
              (py "b") (py "=") (py "2")
  = Raise KeyError.
Proof.
  apply filter_data_missing_cell.
  - apply (proj1 (bool_decide_eq_true _)). reflexivity.
  - apply (proj1 (bool_decide_eq_true _)). reflexivity.
Defined.

End FilteringMore.

(* ===================================================================== *)
(** * More on aggregation *)
(* ===================================================================== *)

Section AggregationMore.

Implicit Types (self : CSVProcessor) (r : row) (rows : list row).
Implicit Types (column operation cell : str) (x y : float) (xs : list float).

(** ** The loop over any rows *)

Lemma collect_body_number column acc r x :
  cell_number column r = Some x → collect_body column acc r = Return (acc ++ [x]).
Proof.
  unfold cell_number. destruct (r !! column) as [cell|] eqn:Hcell; [|done].
  intros Hx. by rewrite (collect_body_cell _ _ _ _ Hcell), Hx.
Qed.

Lemma for_each_collect_body_numbers column rows acc :
  Forall (λ r, is_Some (cell_number column r)) rows →
  for_each (collect_body column) acc rows = Return (acc ++ omap (cell_number column) rows).
Proof.
  intros Hall. revert acc. induction Hall as [|r rows [x Hx] _ IH]; intros acc.
  - simpl. by rewrite app_nil_r.
  - rewrite for_each_cons, (collect_body_number _ _ _ _ Hx), bind_Return, IH.
    cbn [omap list_omap]. rewrite Hx. by rewrite <- app_assoc.
Qed.

Lemma collect_body_stops column acc r :
  cell_number column r = None →
  collect_body column acc r
  = match r !! column with
    | Some _ => SysExit NonNumericColumn
    | None => Raise KeyError
    end.
Proof.
  unfold cell_number, collect_body, getitem.
  destruct (r !! column) as [cell|]; [|done]. simpl. by intros ->.
Qed.

Lemma for_each_collect_body_stops column (before : list row) r (rest : list row) acc :
  Forall (λ r, is_Some (cell_number column r)) before →
  cell_number column r = None →
  for_each (collect_body column) acc (before ++ r :: rest)
  = match r !! column with
    | Some _ => SysExit NonNumericColumn
    | None => Raise KeyError
    end.
Proof.
  intros Hall Hr. revert acc. induction Hall as [|r0 before [x Hx] _ IH]; intros acc.
  - cbn [app]. rewrite for_each_cons, (collect_body_stops _ _ _ Hr).
    by destruct (r !! column).
  - cbn [app]. by rewrite for_each_cons, (collect_body_number _ _ _ _ Hx), bind_Return, IH.
Qed.

(** The rows split at the first one without a number, if there is one. *)
Lemma first_without_number column rows :
  Forall (λ r, is_Some (cell_number column r)) rows ∨
  ∃ before r rest, rows = before ++ r :: rest ∧
                   Forall (λ r, is_Some (cell_number column r)) before ∧
                   cell_number column r = None.
Proof.
  induction rows as [|r rows [IH | (before & r' & rest & -> & Hall & Hr')]].
  - by left.
  - destruct (cell_number column r) as [x|] eqn:Hx.
    + left. constructor; [by eexists | done].
    + right. by exists [], r, rows.
  - right. destruct (cell_number column r) as [x|] eqn:Hx.
    + exists (r :: before), r', rest. split_and!; [done | | done].
      constructor; [by eexists | done].
    + by exists [], r, (before ++ r' :: rest).
Qed.

Lemma aggregate_data_known self column operation :
  column ∈ headers self →
  aggregate_data self column operation
  = (numeric_values ← for_each (collect_body column) [] (data self);
     aggregate_values column operation numeric_values).
Proof. intros Hcol. unfold aggregate_data. by rewrite bool_decide_eq_true_2. Qed.

Lemma aggregate_data_unknown self column operation :
  column ∉ headers self → aggregate_data self column operation = SysExit UnknownColumn.
Proof. intros Hcol. unfold aggregate_data. by rewrite bool_decide_eq_false_2. Qed.

Lemma aggregate_data_numbers self column operation :
  column ∈ headers self →
  Forall (λ r, is_Some (cell_number column r)) (data self) →
  aggregate_data self column operation
  = aggregate_values column operation (omap (cell_number column) (data self)).
Proof.
  intros Hcol Hall.
  by rewrite aggregate_data_known, (for_each_collect_body_numbers _ _ [] Hall), bind_Return.
Qed.

Lemma aggregate_data_stops self column operation (before : list row) r (rest : list row) :
  column ∈ headers self → data self = before ++ r :: rest →
  Forall (λ r, is_Some (cell_number column r)) before →
  cell_number column r = None →
  aggregate_data self column operation = stops_at column r.
Proof.
  intros Hcol Hdata Hall Hr.
  rewrite aggregate_data_known, Hdata, (for_each_collect_body_stops _ _ _ _ [] Hall Hr) by done.
  unfold stops_at. by destruct (r !! column).
Qed.

Lemma omap_numbers_nil column rows :
  Forall (λ r, is_Some (cell_number column r)) rows →
  omap (cell_number column) rows = [] → rows = [].
Proof. intros [|r rows' [x Hx] _]; [done|]. cbn [omap list_omap]. by rewrite Hx. Qed.

Lemma aggregate_values_Return column operation xs result :
  aggregate_values column operation xs = Return result →
  xs ≠ [] ∧ operation ∈ aggregate_operations ∧
  res_column result = column ∧ res_operation result = operation_label operation.
Proof.
  unfold aggregate_values, operation_label, aggregate_operations.
  destruct xs as [|x xs]; [done|].
  destruct (str_eqb operation (py "avg")) eqn:Havg.
  { apply str_eqb_eq in Havg as ->.
    destruct (float_truediv _ _); [|done]. intros [= <-].
    split_and!; [done | | done..]. apply elem_of_cons. by left. }
  destruct (str_eqb operation (py "min")) eqn:Hmin.
  { apply str_eqb_eq in Hmin as ->.
    destruct (py_min _); [|done]. intros [= <-].
    split_and!; [done | | done..]. apply elem_of_cons. right. apply elem_of_cons. by left. }
  destruct (str_eqb operation (py "max")) eqn:Hmax; [|done].
  apply str_eqb_eq in Hmax as ->.
  destruct (py_max _); [|done]. intros [= <-].
  split_and!; [done | | done..]. do 2 (apply elem_of_cons; right). apply elem_of_cons. by left.
Qed.

Lemma aggregate_values_unknown column operation x xs :
  operation ∉ aggregate_operations →
  aggregate_values column operation (x :: xs) = SysExit UnknownOperation.
Proof.
  intros Hop. unfold aggregate_values, aggregate_operations in *.
  assert (operation ≠ py "avg") by (intros ->; apply Hop; apply elem_of_cons; by left).
  assert (operation ≠ py "min")
    by (intros ->; apply Hop; do 1 (apply elem_of_cons; right); apply elem_of_cons; by left).
  assert (operation ≠ py "max")
    by (intros ->; apply Hop; do 2 (apply elem_of_cons; right); apply elem_of_cons; by left).
  by rewrite (str_eqb_ne operation (py "avg")), (str_eqb_ne operation (py "min")),
    (str_eqb_ne operation (py "max")).
Qed.

(** A result comes from the code after the loop, run on the numbers of
    all the rows. *)
Lemma aggregate_data_Return self column operation result :
  aggregate_data self column operation = Return result →
  column ∈ headers self ∧
  Forall (λ r, is_Some (cell_number column r)) (data self) ∧
  aggregate_values column operation (omap (cell_number column) (data self))
  = Return result.
Proof.
  intros Hres.
  destruct (decide (column ∈ headers self)) as [Hcol|Hcol];
    [|by rewrite aggregate_data_unknown in Hres].
  destruct (first_without_number column (data self))
    as [Hall | (before & r & rest & Hdata & Hall & Hr)].
  - by rewrite aggregate_data_numbers in Hres.
  - rewrite (aggregate_data_stops _ _ _ _ _ _ Hcol Hdata Hall Hr) in Hres.
    unfold stops_at in Hres. by destruct (r !! column).
Qed.

(** What a result of [aggregate_data] tells: the column is a header, the
    operation is one of [avg], [min], [max], the table has a row, every row
    has a numeral in the column, and the result carries the column and the
    label of the operation. *)
Theorem aggregate_data_result self column operation result :
  aggregate_data self column operation = Return result →
  column ∈ headers self ∧ operation ∈ aggregate_operations ∧ data self ≠ [] ∧
  Forall (λ r, is_Some (cell_number column r)) (data self) ∧
  res_column result = column ∧ res_operation result = operation_label operation.
Proof.
  intros (Hcol & Hall & Hvalues)%aggregate_data_Return.
  apply aggregate_values_Return in Hvalues as (Hne & Hop & Hcolumn & Hlabel).
  split_and!; try done.
  intros Hnil. apply Hne. by rewrite Hnil.
Qed.

Lemma aggregate_data_result_witness :
  py "price" ∈ headers phones ∧ py "avg" ∈ aggregate_operations ∧ data phones ≠ [] ∧
  Forall (λ r, is_Some (cell_number (py "price") r)) (data phones) ∧
  res_column {| res_operation := py "Average"; res_column := py "price";
                res_value := float_of_int 674 |} = py "price" ∧
  res_operation {| res_operation := py "Average"; res_column := py "price";
                   res_value := float_of_int 674 |} = operation_label (py "avg").
Proof. apply (aggregate_data_result phones (py "price") (py "avg")). reflexivity. Defined.

(** The loop of [aggregate_data] stops at the first row without a number
    in the column, whatever the rows after it and the operation are: with
    [KeyError] when the row has no cell for the column, with the exit for a
    non-numeric column when the cell is not a numeral. *)
Theorem aggregate_data_first_bad_row self column operation (before : list row) r
    (rest : list row) :
  column ∈ headers self → data self = before ++ r :: rest →
  Forall (λ r, is_Some (cell_number column r)) before →
  cell_number column r = None →
  aggregate_data self column operation
  = match r !! column with
    | Some _ => SysExit NonNumericColumn
    | None => Raise KeyError
    end.
Proof.
  intros Hcol Hdata Hall Hr. unfold aggregate_data.
  rewrite bool_decide_eq_true_2 by done. simpl negb. cbv iota.
  rewrite Hdata, (for_each_collect_body_stops _ _ _ _ [] Hall Hr).
  by destruct (r !! column).
Qed.

Lemma aggregate_data_first_bad_row_witness :
  aggregate_data {| filepath := []; headers := [py "a"; py "b"];
                    data := [ {[ py "a" := py "1"; py "b" := py "2" ]};
                              {[ py "a" := py "3" ]};
                              {[ py "a" := py "4"; py "b" := py "x" ]} ] |}
                 (py "b") (py "sum")
  = match ({[ py "a" := py "3" ]} : row) !! py "b" with
    | Some _ => SysExit NonNumericColumn
    | None => Raise KeyError
    end.
Proof.
  apply (aggregate_data_first_bad_row _ _ _ [ {[ py "a" := py "1"; py "b" := py "2" ]} ]
           {[ py "a" := py "3" ]} [ {[ py "a" := py "4"; py "b" := py "x" ]} ]).
  - apply (proj1 (bool_decide_eq_true _)). reflexivity.
  - reflexivity.
  - constructor; [|constructor]. vm_compute. eauto.
  - reflexivity.
Defined.

(** The operation is looked at last.  For an operation other than [avg],
    [min] and [max], the exit for an unknown operation is reached exactly
    when the column is a header, the table has a row and every row has a
    numeral in the column; in every other case the outcome is the one of any
    other operation. *)
Theorem aggregate_data_operation_last self column operation :
  operation ∉ aggregate_operations →
  (aggregate_data self column operation = SysExit UnknownOperation ↔
   column ∈ headers self ∧ data self ≠ [] ∧
   Forall (λ r, is_Some (cell_number column r)) (data self)) ∧
  (aggregate_data self column operation ≠ SysExit UnknownOperation →
   ∀ operation', aggregate_data self column operation'
                 = aggregate_data self column operation).
Proof.
  intros Hop.
  destruct (decide (column ∈ headers self)) as [Hcol|Hcol].
  2:{ split; [|intros _ ?; by rewrite !aggregate_data_unknown].
      rewrite aggregate_data_unknown by done. split; [done|]. by intros [? _]. }
  destruct (first_without_number column (data self))
    as [Hall | (before & r & rest & Hdata & Hall & Hr)].
  - rewrite aggregate_data_numbers by done.
    destruct (omap (cell_number column) (data self)) as [|x xs] eqn:Hxs.
    + apply omap_numbers_nil in Hxs; [|done]. split.
      * split; [done|]. by intros (_ & ? & _).
      * intros _ operation'. rewrite aggregate_data_numbers by done.
        by rewrite Hxs.
    + rewrite aggregate_values_unknown by done. split; [|done].
      split; [|done]. intros _. split_and!; [done | | done].
      intros Hnil. by rewrite Hnil in Hxs.
  - rewrite (aggregate_data_stops _ _ _ _ _ _ Hcol Hdata Hall Hr). split.
    + split.
      * unfold stops_at. by destruct (r !! column).
      * intros (_ & _ & Hnum). rewrite Hdata in Hnum.
        apply Forall_app in Hnum as [_ [[x Hx] _]%Forall_cons]. congruence.
    + intros _ operation'. by rewrite (aggregate_data_stops _ _ _ _ _ _ Hcol Hdata Hall Hr).
Qed.

Lemma aggregate_data_operation_last_witness :
  (aggregate_data phones (py "price") (py "sum") = SysExit UnknownOperation ↔
   py "price" ∈ headers phones ∧ data phones ≠ [] ∧
   Forall (λ r, is_Some (cell_number (py "price") r)) (data phones)) ∧
  (aggregate_data phones (py "price") (py "sum") ≠ SysExit UnknownOperation →
   ∀ operation', aggregate_data phones (py "price") operation'
                 = aggregate_data phones (py "price") (py "sum")).
Proof.
  apply aggregate_data_operation_last.
  apply (proj1 (bool_decide_eq_false _)). reflexivity.
Defined.

(** ** Minimum and maximum of the same rows in another order *)

Lemma float_leb_antisym x y :
  float_leb x y = true → float_leb y x = true → float_eqb x y = true.
Proof.
  unfold float_leb, float_eqb, SFleb, SFeqb. rewrite (SFcompare_swap x y).
  by destruct (SFcompare x y) as [[]|].
Qed.

Lemma py_min_any_order xs ys lo lo' :
  Forall (λ y, is_nan y = false) xs → xs ≡ₚ ys →
  py_min xs = Some lo → py_min ys = Some lo' → float_eqb lo lo' = true.
Proof.
  intros Hxs Hperm Hlo Hlo'.
  assert (Forall (λ y, is_nan y = false) ys) as Hys by by rewrite <- Hperm.
  destruct (py_min_least _ _ Hxs Hlo) as [Hin Hle].
  destruct (py_min_least _ _ Hys Hlo') as [Hin' Hle'].
  apply float_leb_antisym.
  - apply Hle. by rewrite Hperm.
  - apply Hle'. by rewrite <- Hperm.
Qed.

Lemma py_max_any_order xs ys hi hi' :
  Forall (λ y, is_nan y = false) xs → xs ≡ₚ ys →
  py_max xs = Some hi → py_max ys = Some hi' → float_eqb hi hi' = true.
Proof.
  intros Hxs Hperm Hhi Hhi'.
  assert (Forall (λ y, is_nan y = false) ys) as Hys by by rewrite <- Hperm.
  destruct (py_max_greatest _ _ Hxs Hhi) as [Hin Hle].
  destruct (py_max_greatest _ _ Hys Hhi') as [Hin' Hle'].
  apply float_leb_antisym.
  - apply Hle'. by rewrite <- Hperm.
  - apply Hle. by rewrite Hperm.
Qed.

Lemma aggregate_values_min_max column operation xs result :
  operation = py "min" ∨ operation = py "max" →
  aggregate_values column operation xs = Return result →
  (if str_eqb operation (py "min") then py_min xs else py_max xs) = Some (res_value result).
Proof.
  intros [-> | ->]; destruct xs as [|x xs]; try done; by intros [= <-].
Qed.

Lemma omap_numbers_no_nan column rows :
  Forall (λ r, nan_cell column r = false) rows →
  Forall (λ y, is_nan y = false) (omap (cell_number column) rows).
Proof.
  induction 1 as [|r rows Hr _ IH]; [constructor|]. cbn [omap list_omap].
  unfold nan_cell in Hr.
  destruct (cell_number column r) as [x|]; [|done]. by constructor.
Qed.

(** The minimum and the maximum do not depend on the order of the rows,
    as numbers: when no cell of the column is a NaN and the aggregate of
    the table is returned, the aggregate of the same rows in any other
    order is returned too and is [==] to it.  (It need not be the same
    float: [0.0 == -0.0], and the one met first is kept.) *)
Theorem aggregate_data_min_max_any_order self rows column operation result :
  operation = py "min" ∨ operation = py "max" →
  rows ≡ₚ data self →
  Forall (λ r, nan_cell column r = false) (data self) →
  aggregate_data self column operation = Return result →
  ∃ result', aggregate_data (with_data self rows) column operation = Return result' ∧
             float_eqb (res_value result) (res_value result') = true.
Proof.
  intros Hop Hperm Hnan Hres.
  apply aggregate_data_Return in Hres as (Hcol & Hall & Hres).
  destruct (aggregate_values_Return _ _ _ _ Hres) as (Hne & Hin & _).
  assert (Forall (λ r, is_Some (cell_number column r)) rows) as Hall'
    by by rewrite Hperm.
  assert (aggregate_data (with_data self rows) column operation
          = aggregate_values column operation (omap (cell_number column) rows)) as ->
    by by apply aggregate_data_numbers.
  assert (omap (cell_number column) (data self) ≡ₚ omap (cell_number column) rows)
    as Hxs by by rewrite Hperm.
  destruct (omap (cell_number column) rows) as [|y ys] eqn:Hrows.
  { by apply Permutation_nil_r in Hxs. }
  destruct (aggregate_values_returns column operation y ys Hin) as [result' Hres'].
  exists result'. split; [done|].
  apply omap_numbers_no_nan in Hnan.
  pose proof (aggregate_values_min_max _ _ _ _ Hop Hres) as Hv.
  pose proof (aggregate_values_min_max _ _ _ _ Hop Hres') as Hv'.
  destruct (str_eqb operation (py "min")).
  - by apply (py_min_any_order _ _ _ _ Hnan Hxs).
  - by apply (py_max_any_order _ _ _ _ Hnan Hxs).
Qed.

Lemma aggregate_data_min_max_any_order_witness :
  ∃ result',
    aggregate_data (with_data phones (rev (data phones))) (py "price") (py "max")
    = Return result' ∧
    float_eqb (res_value {| res_operation := py "Maximum"; res_column := py "price";
                            res_value := float_of_int 1199 |})
              (res_value result') = true.
Proof.
  apply (aggregate_data_min_max_any_order phones (rev (data phones)) (py "price") (py "max")).
  - by right.
  - symmetry. apply Permutation_rev.
  - apply (proj1 (bool_decide_eq_true _)). reflexivity.
  - reflexivity.
Defined.

(** The two zeros are [==], and [min] keeps the one it meets first: the
    minimum of the same two rows is [0.0] in one order and [-0.0] in the
    other, shown as [0.00] and as [-0.00]. *)
Example minimum_of_two_zeros :
  let one := single_column [py "0.0"; py "-0.0"] in
  let other := single_column [py "-0.0"; py "0.0"] in
  data one ≡ₚ data other ∧
  (format_2f <$> aggregate_value one (py "x") (py "min")) = Some (py "0.00") ∧
  (format_2f <$> aggregate_value other (py "x") (py "min")) = Some (py "-0.00").
Proof. split_and!; [apply perm_swap | reflexivity..]. Qed.

(** The sum is rounded after every addition, so the average does depend on
    the order of the rows. *)
Example average_depends_on_order :
  let one := single_column [py "1e16"; py "1"; py "-1e16"] in
  let other := single_column [py "1e16"; py "-1e16"; py "1"] in
  data one ≡ₚ data other ∧
  (format_2f <$> aggregate_value one (py "x") (py "avg")) = Some (py "0.00") ∧
  (format_2f <$> aggregate_value other (py "x") (py "avg")) = Some (py "0.33").
Proof.
  split_and!; [| reflexivity..]. simpl. apply perm_skip, perm_swap.
Qed.

(** ** After [parse_aggregate_condition] *)

(** An operation that [parse_aggregate_condition] returns is never
    refused by [aggregate_data]: called as [main] calls it, on the column
    and the operation parsed, [aggregate_data] does not reach its exit for
    an unknown operation, and on a table with a row and numerals in the
    column it returns the result with the label of the operation. *)
Theorem aggregate_data_after_parse self text column operation :
  parse_aggregate_condition text = Return (column, operation) →
  aggregate_data self column operation ≠ SysExit UnknownOperation ∧
  (column ∈ headers self → data self ≠ [] →
   Forall (λ r, is_Some (cell_number column r)) (data self) →
   ∃ result, aggregate_data self column operation = Return result ∧
             res_column result = column ∧
             res_operation result = operation_label operation).
Proof.
  intros [Hop _]%parse_aggregate_condition_Return.
  assert (column ∈ headers self → data self ≠ [] →
          Forall (λ r, is_Some (cell_number column r)) (data self) →
          ∃ result, aggregate_data self column operation = Return result) as Hret.
  { intros Hcol Hne Hall. rewrite aggregate_data_numbers by done.
    destruct (omap (cell_number column) (data self)) as [|x xs] eqn:Hxs.
    - by apply omap_numbers_nil in Hxs.
    - by apply aggregate_values_returns. }
  split.
  - intros Hres.
    destruct (decide (column ∈ headers self)) as [Hcol|Hcol];
      [|by rewrite aggregate_data_unknown in Hres].
    destruct (first_without_number column (data self))
      as [Hall | (before & r & rest & Hdata & Hall & Hr)].
    + destruct (decide (data self = [])) as [Hnil|Hne].
      * rewrite aggregate_data_numbers, Hnil in Hres by done. done.
      * destruct (Hret Hcol Hne Hall) as [result Hres']. congruence.
    + rewrite (aggregate_data_stops _ _ _ _ _ _ Hcol Hdata Hall Hr) in Hres.
      unfold stops_at in Hres. by destruct (r !! column).
  - intros Hcol Hne Hall. destruct (Hret Hcol Hne Hall) as [result Hres].
    exists result. split; [done|].
    rewrite aggregate_data_numbers in Hres by done.
    by apply aggregate_values_Return in Hres as (_ & _ & ? & ?).
Qed.

Lemma aggregate_data_after_parse_witness :
  aggregate_data phones (py "price") (py "avg") ≠ SysExit UnknownOperation ∧
  (py "price" ∈ headers phones → data phones ≠ [] →
   Forall (λ r, is_Some (cell_number (py "price") r)) (data phones) →
   ∃ result, aggregate_data phones (py "price") (py "avg") = Return result ∧
             res_column result = py "price" ∧
             res_operation result = operation_label (py "avg")).
Proof. apply (aggregate_data_after_parse phones (py " price = avg ")). reflexivity. Defined.

End AggregationMore.

(* ===================================================================== *)
(** * What is printed *)
(* ===================================================================== *)

Section Output.

Implicit Types (self : CSVProcessor) (r : row) (rows : list row).
Implicit Types (column operation text : str) (x : float).

(** ** [display_table] *)

Lemma fold_left_snoc_map {A B} (f : A → B) (l : list A) (acc : list B) :
  fold_left (λ acc a, acc ++ [f a]) l acc = acc ++ map f l.
Proof.
  revert acc. induction l as [|a l IH]; intros acc; simpl; [by rewrite app_nil_r|].
  by rewrite IH, <- app_assoc.
Qed.

Lemma display_table_rows self r rows :
  display_table self (r :: rows)
  = [Grid (map (shown_cells self) (r :: rows)) (headers self)].
Proof.
  unfold display_table. do 2 f_equal.
  apply (fold_left_snoc_map (shown_cells self) (r :: rows) []).
Qed.

(** [display_table] prints the line [No data to display.] exactly for an
    empty list of rows.  For any other list it prints one grid under the
    headers of the processor, with one line of cells for each row, in the
    order of the rows; a line has one cell for each header, in the order of
    the headers: the cell of the row, or the empty text when the row has
    none.  Cells of the row under other keys are not shown. *)
Theorem display_table_shape self rows :
  (display_table self rows = [Line (py "No data to display.")] ↔ rows = []) ∧
  (rows ≠ [] →
   ∃ table_data,
     display_table self rows = [Grid table_data (headers self)] ∧
     length table_data = length rows ∧
     (∀ i r, rows !! i = Some r →
        ∃ cells, table_data !! i = Some cells ∧
                 length cells = length (headers self) ∧
                 ∀ j header, headers self !! j = Some header →
                             cells !! j = Some (default [] (r !! header)))).
Proof.
  split.
  - destruct rows as [|r rows]; [done|]. by rewrite display_table_rows.
  - destruct rows as [|r0 rows]; [done|]. intros _.
    exists (map (shown_cells self) (r0 :: rows)).
    split_and!; [apply display_table_rows | by rewrite length_map |].
    intros i r Hr. exists (shown_cells self r).
    split_and!.
    + by rewrite list_lookup_fmap, Hr.
    + unfold shown_cells. by rewrite length_map.
    + intros j header Hj. unfold shown_cells.
      rewrite list_lookup_fmap, Hj. simpl. unfold get_or_empty.
      by destruct (r !! header).
Qed.

(** ** [display_aggregation] *)

Lemma uint_codes_digits d : Forall (λ c, isdigit c = true) (uint_codes d).
Proof. induction d; simpl; by constructor. Qed.

Lemma uint_codes_nil d : uint_codes d = [] → d = Decimal.Nil.
Proof. by destruct d. Qed.

Lemma str_of_int_digits n : Forall (λ c, isdigit c = true) (str_of_int n).
Proof. apply uint_codes_digits. Qed.

Lemma str_of_int_nonempty n : str_of_int n ≠ [].
Proof.
  unfold str_of_int. intros Hnil%uint_codes_nil. revert Hnil.
  destruct (Z.to_N n) as [|p]; [done|]. apply DecimalPos.Unsigned.to_uint_nonnil.
Qed.

Lemma str_of_int_digit n :
  0 ≤ n < 10 → ∃ c, str_of_int n = [c] ∧ isdigit c = true.
Proof.
  intros Hn.
  assert (n = 0 ∨ n = 1 ∨ n = 2 ∨ n = 3 ∨ n = 4 ∨ n = 5 ∨ n = 6 ∨ n = 7 ∨ n = 8 ∨ n = 9)
    as Hcases by lia.
  repeat destruct Hcases as [->|Hcases]; try subst n; by eexists.
Qed.

Lemma format_2f_two_decimals x :
  match x with
  | S754_nan => format_2f x = py "nan"
  | S754_infinity s => format_2f x = if s then py "-inf" else py "inf"
  | _ => two_decimals (format_2f x)
  end.
Proof.
  destruct x as [s|s| |s m e]; [|done..|].
  - exists (if s then py "-" else []), (py "0"), 48%N, 48%N.
    split_and!; [done | by destruct s; [right | left] | done | by repeat constructor | done..].
  - unfold format_2f. set (n := hundredths m e).
    destruct (str_of_int_digit (n mod 100 / 10)) as (d1 & Hd1 & Hdig1).
    { pose proof (Z.mod_pos_bound n 100).
      split; [apply Z.div_pos; lia | apply Z.div_lt_upper_bound; lia]. }
    destruct (str_of_int_digit (n mod 10)) as (d2 & Hd2 & Hdig2);
      [apply Z.mod_pos_bound; lia|].
    exists (if s then py "-" else []), (str_of_int (n / 100)), d1, d2.
    rewrite Hd1, Hd2.
    split_and!; [done | by destruct s; [right | left] | apply str_of_int_nonempty
                 | apply str_of_int_digits | done..].
Qed.

Lemma display_aggregation_text result :
  ∃ text,
    display_aggregation result
    = [Grid [ [py "Operation"; res_operation result];
              [py "Column"; res_column result];
              [py "Value"; text] ]
            [py "Metric"; py "Value"]] ∧
    (two_decimals text ∨ text ∈ [py "nan"; py "inf"; py "-inf"]).
Proof.
  exists (format_2f (res_value result)). split; [done|].
  - pose proof (format_2f_two_decimals (res_value result)) as Hform.
    destruct (res_value result) as [s|s| |s m e]; [by left | | | by left].
    + right. rewrite Hform. destruct s; [do 2 right; left | right; left].
    + right. rewrite Hform. left.
Qed.

(** The table of an aggregate: for a result that [aggregate_data] returns,
    [display_aggregation] prints one grid under the headers [Metric] and
    [Value] with three lines, the label of the operation, the column and
    the value; the value is written with a point and two decimals, unless it
    is a NaN or an infinity, which a column of numerals can give. *)
Theorem display_aggregation_of_result self column operation result :
  aggregate_data self column operation = Return result →
  ∃ text,
    display_aggregation result
    = [Grid [ [py "Operation"; operation_label operation];
              [py "Column"; column];
              [py "Value"; text] ]
            [py "Metric"; py "Value"]] ∧
    (two_decimals text ∨ text ∈ [py "nan"; py "inf"; py "-inf"]).
Proof.
  intros (_ & _ & Hvalues)%aggregate_data_Return.
  apply aggregate_values_Return in Hvalues as (_ & _ & Hcolumn & Hlabel).
  destruct (display_aggregation_text result) as (text & Hgrid & Htext).
  exists text. split; [|done]. by rewrite Hgrid, Hcolumn, Hlabel.
Qed.

Lemma display_aggregation_of_result_witness :
  ∃ text,
    display_aggregation {| res_operation := py "Average"; res_column := py "price";
                           res_value := float_of_int 674 |}
    = [Grid [ [py "Operation"; operation_label (py "avg")];
              [py "Column"; py "price"];
              [py "Value"; text] ]
            [py "Metric"; py "Value"]] ∧
    (two_decimals text ∨ text ∈ [py "nan"; py "inf"; py "-inf"]).
Proof. apply (display_aggregation_of_result phones (py "price") (py "avg")). reflexivity. Defined.

End Output.

(* ===================================================================== *)
(** * [load_data] and [main] *)
(* ===================================================================== *)

Section Main.

Implicit Types (self : CSVProcessor) (r : row) (rows : list row) (args : Namespace).
Implicit Types (read_csv : str → read_result) (out : list printed).
Implicit Types (column operator operation value text : str).

Lemma run_bind_Finished {A B} (a : A) (k : A → run B) : Finished a ≫= k = k a.
Proof. reflexivity. Qed.

(** ** [load_data] *)

Lemma load_data_init read_csv path :
  load_data read_csv (__init__ path)
  = match read_csv path with
    | ReadRows fieldnames rows =>
        Finished {| filepath := path; data := rows; headers := headers_of fieldnames |}
    | RaisesFileNotFoundError => Exit1 FileNotFound
    | RaisesException => Exit1 ReadFailure
    end.
Proof. unfold load_data, __init__. simpl. by destruct (read_csv path). Qed.


(** ** The two options *)

Lemma main_where read_csv args :
  given (arg_where args) = true → given (arg_aggregate args) = false →
  main read_csv args
  = (processor ← load_data read_csv (__init__ (arg_file args));
     '(column, operator, value) ← call (parse_filter_condition (option_text (arg_where args)));
     filtered_data ← call (filter_data processor column operator value);
     Finished (filter_report column operator value (length filtered_data)
               ++ display_table processor filtered_data)).
Proof. intros Hw Ha. unfold main. by rewrite Hw, Ha. Qed.

Lemma main_aggregate read_csv args :
  given (arg_where args) = false → given (arg_aggregate args) = true →
  main read_csv args
  = (processor ← load_data read_csv (__init__ (arg_file args));
     '(column, operation) ← call (parse_aggregate_condition (option_text (arg_aggregate args)));
     result ← call (aggregate_data processor column operation);
     Finished ([ Line (py "Aggregation results:"); Line [] ] ++ display_aggregation result)).
Proof. intros Hw Ha. unfold main. by rewrite Hw, Ha. Qed.

Lemma main_both read_csv args :
  given (arg_where args) = true → given (arg_aggregate args) = true →
  main read_csv args = Exit1 BothOptions.
Proof. intros Hw Ha. unfold main. by rewrite Hw, Ha. Qed.

Lemma main_neither read_csv args :
  given (arg_where args) = false → given (arg_aggregate args) = false →
  main read_csv args = Exit1 NoOption.
Proof. intros Hw Ha. unfold main. by rewrite Hw, Ha. Qed.

Lemma call_not_option {A} (o : outcome A) (m : exit_message) :
  call o = Exit1 m → ∃ reason, m = Reported reason.
Proof. destruct o; [done| |done]. intros [= <-]. by eexists. Qed.

(** With one option and a file that is read, an exit of [main] is one of
    the exits of the parsers, of [filter_data] or of [aggregate_data]. *)
Lemma main_one_option_exit read_csv args fieldnames rows m :
  given (arg_where args) ≠ given (arg_aggregate args) →
  read_csv (arg_file args) = ReadRows fieldnames rows →
  main read_csv args = Exit1 m → ∃ reason, m = Reported reason.
Proof.
  intros Hone Hread.
  destruct (given (arg_where args)) eqn:Hw, (given (arg_aggregate args)) eqn:Ha; try done.
  - rewrite main_where, load_data_init, Hread, run_bind_Finished by done.
    destruct (parse_filter_condition _) as [[[column operator] value]|reason|e] eqn:Hparse;
      simpl; [|intros [= <-]; by eexists|done].
    destruct (filter_data _ column operator value) as [kept|reason|e]; simpl;
      [done|intros [= <-]; by eexists|done].
  - rewrite main_aggregate, load_data_init, Hread, run_bind_Finished by done.
    destruct (parse_aggregate_condition _) as [[column operation]|reason|e] eqn:Hparse;
      simpl; [|intros [= <-]; by eexists|done].
    destruct (aggregate_data _ column operation) as [result|reason|e]; simpl;
      [done|intros [= <-]; by eexists|done].
Qed.

(** [main] wants exactly one of the two options, and looks at nothing
    else before: with both it exits with the message for both, with
    neither with the message for none, whatever the file is, and these are
    the only ways to these two exits.  An option given as the empty text
    counts as not given. *)
Theorem main_option_check read_csv args :
  (main read_csv args = Exit1 BothOptions ↔
   given (arg_where args) = true ∧ given (arg_aggregate args) = true) ∧
  (main read_csv args = Exit1 NoOption ↔
   given (arg_where args) = false ∧ given (arg_aggregate args) = false) ∧
  (arg_where args = Some [] → arg_aggregate args = None →
   main read_csv args = Exit1 NoOption).
Proof.
  assert (given (arg_where args) ≠ given (arg_aggregate args) →
          ∀ m, main read_csv args = Exit1 m → m ≠ BothOptions ∧ m ≠ NoOption) as Hone.
  { intros Hne m Hm.
    destruct (read_csv (arg_file args)) as [fieldnames rows| |] eqn:Hread.
    - destruct (main_one_option_exit _ _ _ _ _ Hne Hread Hm) as [reason ->]. done.
    - destruct (given (arg_where args)) eqn:Hw, (given (arg_aggregate args)) eqn:Ha;
        try done;
        [rewrite main_where in Hm by done | rewrite main_aggregate in Hm by done];
        rewrite load_data_init, Hread in Hm; by injection Hm as <-.
    - destruct (given (arg_where args)) eqn:Hw, (given (arg_aggregate args)) eqn:Ha;
        try done;
        [rewrite main_where in Hm by done | rewrite main_aggregate in Hm by done];
        rewrite load_data_init, Hread in Hm; by injection Hm as <-. }
  split_and!.
  - split; [|intros [? ?]; by apply main_both].
    intros Hm. destruct (given (arg_where args)) eqn:Hw, (given (arg_aggregate args)) eqn:Ha;
      [done | | | by rewrite main_neither in Hm].
    + by destruct (Hone ltac:(done) _ Hm).
    + by destruct (Hone ltac:(done) _ Hm).
  - split; [|intros [? ?]; by apply main_neither].
    intros Hm. destruct (given (arg_where args)) eqn:Hw, (given (arg_aggregate args)) eqn:Ha;
      [by rewrite main_both in Hm | | | done].
    + by destruct (Hone ltac:(done) _ Hm).
    + by destruct (Hone ltac:(done) _ Hm).
  - intros Hw Ha. apply main_neither; [by rewrite Hw | by rewrite Ha].
Qed.

(** ** The order of the checks *)

(** With exactly one option, the file is read before the condition is
    looked at: a file that cannot be read ends [main] with the exit of
    [load_data], whatever the condition is; a condition that does not parse
    ends it with the exit of its parser, whatever the file holds; and a
    column that is not among the field names ends it with the exit for an
    unknown column, whatever the rows are. *)
Theorem main_order_of_checks read_csv args :
  given (arg_where args) ≠ given (arg_aggregate args) →
  (read_csv (arg_file args) = RaisesFileNotFoundError →
   main read_csv args = Exit1 FileNotFound) ∧
  (read_csv (arg_file args) = RaisesException →
   main read_csv args = Exit1 ReadFailure) ∧
  (∀ fieldnames rows, read_csv (arg_file args) = ReadRows fieldnames rows →
     (∀ reason,
        (if given (arg_where args)
         then parse_filter_condition (option_text (arg_where args)) = SysExit reason
         else parse_aggregate_condition (option_text (arg_aggregate args)) = SysExit reason) →
        main read_csv args = Exit1 (Reported reason)) ∧
     (∀ column,
        (if given (arg_where args)
         then ∃ operator value,
                parse_filter_condition (option_text (arg_where args))
                = Return (column, operator, value)
         else ∃ operation,
                parse_aggregate_condition (option_text (arg_aggregate args))
                = Return (column, operation)) →
        column ∉ headers_of fieldnames →
        main read_csv args = Exit1 (Reported UnknownColumn))).
Proof.
  intros Hone.
  destruct (given (arg_where args)) eqn:Hw, (given (arg_aggregate args)) eqn:Ha; try done.
  - rewrite main_where, load_data_init by done. split_and!; try by intros ->.
    intros fieldnames rows ->. rewrite run_bind_Finished. split.
    + by intros reason ->.
    + intros column (operator & value & ->) Hcol. simpl.
      by rewrite filter_data_unknown.
  - rewrite main_aggregate, load_data_init by done. split_and!; try by intros ->.
    intros fieldnames rows ->. rewrite run_bind_Finished. split.
    + by intros reason ->.
    + intros column (operation & ->) Hcol. simpl.
      by rewrite aggregate_data_unknown.
Qed.

Lemma main_order_of_checks_witness :
  main (one_file (py "phones.csv") (headers phones) (data phones))
       {| arg_file := py "missing.csv"; arg_where := Some (py "no condition");
          arg_aggregate := None |}
  = Exit1 FileNotFound.
Proof.
  apply main_order_of_checks; [|reflexivity]. simpl. discriminate.
Defined.

(** ** The output of a filter *)

(** When [main] finishes with [--where], the file was read, the condition
    was parsed into a column among the field names, an operator and a
    value, and the output is: the line with the three parts of the
    condition, the line with the number of rows kept, an empty line, and
    then the line [No data to display.] when no row is kept, or else one
    grid under the field names with the cells of the rows kept, in the
    order of the file.  The number in the second line is the number of
    lines of the grid. *)
Theorem main_where_output read_csv args out :
  given (arg_where args) = true →
  main read_csv args = Finished out →
  ∃ column operator value fieldnames rows,
    parse_filter_condition (option_text (arg_where args)) = Return (column, operator, value) ∧
    read_csv (arg_file args) = ReadRows fieldnames rows ∧
    column ∈ headers_of fieldnames ∧
    let kept := List.filter (keeps column operator value) rows in
    out = filter_report column operator value (length kept)
          ++ match kept with
             | [] => [Line (py "No data to display.")]
             | _ :: _ =>
                 [Grid (map (λ r, map (get_or_empty r) (headers_of fieldnames)) kept)
                       (headers_of fieldnames)]
             end.
Proof.
  intros Hw Hres.
  destruct (given (arg_aggregate args)) eqn:Ha; [by rewrite main_both in Hres|].
  rewrite main_where, load_data_init in Hres by done.
  destruct (read_csv (arg_file args)) as [fieldnames rows| |] eqn:Hread; [|done..].
  rewrite run_bind_Finished in Hres.
  destruct (parse_filter_condition _) as [[[column operator] value]| |]; [|done..].
  simpl in Hres. set (self := {| filepath := arg_file args; data := rows;
                                 headers := headers_of fieldnames |}) in *.
  destruct (decide (column ∈ headers self)) as [Hcol|Hcol];
    [|by rewrite filter_data_unknown in Hres].
  exists column, operator, value, fieldnames, rows. split_and!; [done..|].
  destruct (filter_data_outcome self column operator value Hcol) as [Hret|Hret];
    rewrite Hret in Hres; [|done].
  simpl in Hres. injection Hres as <-. simpl. f_equal.
  destruct (List.filter _ rows) as [|r kept]; [done|]. by rewrite display_table_rows.
Qed.

Lemma main_where_output_witness :
  ∃ column operator value fieldnames rows,
    parse_filter_condition (option_text (Some (py "brand = xiaomi")))
    = Return (column, operator, value) ∧
    one_file (py "phones.csv") (headers phones) (data phones) (py "phones.csv")
    = ReadRows fieldnames rows ∧
    column ∈ headers_of fieldnames ∧
    let kept := List.filter (keeps column operator value) rows in
    [ Line (py "Filtered results for: brand = xiaomi");
      Line (py "Found 2 records:");
      Line [];
      Grid [ [py "redmi note 12"; py "xiaomi"; py "199"; py "4.6"];
             [py "poco x5 pro"; py "xiaomi"; py "299"; py "4.4"] ]
           [py "name"; py "brand"; py "price"; py "rating"] ]
    = filter_report column operator value (length kept)
      ++ match kept with
         | [] => [Line (py "No data to display.")]
         | _ :: _ =>
             [Grid (map (λ r, map (get_or_empty r) (headers_of fieldnames)) kept)
                   (headers_of fieldnames)]
         end.
Proof.
  apply (main_where_output (one_file (py "phones.csv") (headers phones) (data phones))
           {| arg_file := py "phones.csv"; arg_where := Some (py "brand = xiaomi");
              arg_aggregate := None |}); reflexivity.
Defined.

Lemma parse_filter_condition_ge_le text column operator value :
  parse_filter_condition text = Return (column, operator, value) →
  occurs (py ">=") text ∨ occurs (py "<=") text →
  operator = py ">=" ∨ operator = py "<=".
Proof.
  intros (Hsel & _)%parse_filter_condition_Return Hocc.
  apply select_operator_Some in Hsel as Hfind. unfold select_operator in Hfind.
  rewrite operators_codes in Hfind. cbn [List.find] in Hfind.
  destruct (str_in [62; 61]%N text) eqn:Hge; [left; by injection Hfind as <-|].
  destruct (str_in [60; 61]%N text) eqn:Hle; [right; by injection Hfind as <-|].
  apply str_in_false in Hge, Hle. by destruct Hocc.
Qed.

(** A condition written with [>=] or [<=] finds nothing: whenever [main]
    finishes on such a condition, whatever the file holds, it reports the
    operator as [>=] or [<=], a count of [0], and no data. *)
Theorem main_ge_le_finds_nothing read_csv args text out :
  arg_where args = Some text →
  occurs (py ">=") text ∨ occurs (py "<=") text →
  main read_csv args = Finished out →
  ∃ column operator value,
    (operator = py ">=" ∨ operator = py "<=") ∧
    out = [ Line (py "Filtered results for: " ++ column ++ py " " ++ operator
                  ++ py " " ++ value);
            Line (py "Found 0 records:");
            Line [];
            Line (py "No data to display.") ].
Proof.
  intros Htext Hocc Hres.
  assert (given (arg_where args) = true) as Hw.
  { rewrite Htext. destruct text as [|c text]; [|done].
    destruct Hocc as [(a & b & Hab) | (a & b & Hab)]; by destruct a. }
  destruct (given (arg_aggregate args)) eqn:Ha; [by rewrite main_both in Hres|].
  rewrite main_where, load_data_init in Hres by done.
  destruct (read_csv (arg_file args)) as [fieldnames rows| |] eqn:Hread; [|done..].
  rewrite run_bind_Finished, Htext in Hres. simpl option_text in Hres.
  destruct (parse_filter_condition text) as [[[column operator] value]| |] eqn:Hparse;
    [|done..].
  pose proof (parse_filter_condition_ge_le _ _ _ _ Hparse Hocc) as Hop.
  simpl in Hres. set (self := {| filepath := arg_file args; data := rows;
                                 headers := headers_of fieldnames |}) in *.
  destruct (decide (column ∈ headers self)) as [Hcol|Hcol];
    [|by rewrite filter_data_unknown in Hres].
  exists column, operator, value. split; [done|].
  destruct (filter_data_outcome self column operator value Hcol) as [Hret|Hret];
    rewrite Hret in Hres; [|done].
  assert (List.filter (keeps column operator value) (data self) = []) as Hnone.
  { apply filter_bool_nil. intros r. unfold keeps.
    destruct (r !! column) as [cell|]; [|done].
    apply row_matches_other_operator; by destruct Hop as [-> | ->]. }
  rewrite Hnone in Hres. simpl in Hres. by injection Hres as <-.
Qed.

Lemma main_ge_le_finds_nothing_witness :
  ∃ column operator value,
    (operator = py ">=" ∨ operator = py "<=") ∧
    [ Line (py "Filtered results for: price >= 199");
      Line (py "Found 0 records:");
      Line [];
      Line (py "No data to display.") ]
    = [ Line (py "Filtered results for: " ++ column ++ py " " ++ operator
              ++ py " " ++ value);
        Line (py "Found 0 records:");
        Line [];
        Line (py "No data to display.") ].
Proof.
  apply (main_ge_le_finds_nothing
           (one_file (py "phones.csv") (headers phones) (data phones))
           {| arg_file := py "phones.csv"; arg_where := Some (py "price>=199");
              arg_aggregate := None |} (py "price>=199")).
  - reflexivity.
  - left. by exists (py "price"), (py "199").
  - reflexivity.
Defined.

(** ** The output of an aggregate *)



(** ** No exception *)






End Main.
